(** * filesearch: a shallow embedding of find.go

    The Go package walks a directory tree with [filepath.Walk] and reports
    every accepted regular file to a caller-supplied callback, marking files
    whose content hash was already met during the same walk.

    The embedding keeps the shape of the source:
    - Go [error] values are an inductive type with the two sentinels of
      [path/filepath] kept apart from ordinary errors;
    - [os.FileMode] is a 32-bit word held in [Z] and tested with [Z.land];
    - the dedup index [map[string]string] is a [gmap string string];
    - the walker object, the caller's own state (what the two callbacks may
      close over) and a log of the observable calls are threaded through a
      small state monad whose computations may panic;
    - the file system met by the walk is a finite tree, fixed for the
      duration of one walk. *)

From Stdlib Require Import ZArith NArith List String Ascii Bool Lia.
From Stdlib.Strings Require Import Byte.
From stdpp Require Import base option gmap strings list fin_maps.

Import ListNotations.
Local Open Scope string_scope.
Local Open Scope Z_scope.

(** ** Go errors *)

(** [SkipDir] and [SkipAll] are the sentinel values of [path/filepath]; Go
    tests them with [==], which no other error value satisfies. *)
Inductive error : Type :=
| SkipDir
| SkipAll
| errorString (s : string)
| wrapError (msg : string) (err : error).

Definition Error (e : error) : string :=
  match e with
  | SkipDir => "skip this directory"
  | SkipAll => "skip everything and stop the walk"
  | errorString s => s
  | wrapError msg _ => msg
  end.

(** [errors.Unwrap]. *)
Definition Unwrap (e : error) : option error :=
  match e with
  | wrapError _ err => Some err
  | _ => None
  end.

Definition isSkipDir (e : error) : bool :=
  match e with SkipDir => true | _ => false end.

Definition isSkipAll (e : error) : bool :=
  match e with SkipAll => true | _ => false end.

(** [err != nil]. *)
Definition notNil (err : option error) : bool :=
  match err with Some _ => true | None => false end.

(** [fmt.Errorf("failed to hash file '%s' - %w", filePath, err)]. *)
Definition hashFailure (filePath : string) (err : error) : error :=
  wrapError ("failed to hash file '" ++ filePath ++ "' - " ++ Error err) err.

(** ** File metadata *)

Definition ModeDir : Z := Z.shiftl 1 31.
Definition ModeSymlink : Z := Z.shiftl 1 27.
Definition ModeDevice : Z := Z.shiftl 1 26.
Definition ModeNamedPipe : Z := Z.shiftl 1 25.
Definition ModeSocket : Z := Z.shiftl 1 24.
Definition ModeCharDevice : Z := Z.shiftl 1 21.
Definition ModeIrregular : Z := Z.shiftl 1 19.

Definition ModeType : Z :=
  Z.lor ModeDir (Z.lor ModeSymlink (Z.lor ModeNamedPipe
    (Z.lor ModeSocket (Z.lor ModeDevice (Z.lor ModeCharDevice ModeIrregular))))).

Record FileInfo : Type := mkFileInfo {
  Name : string;
  Size : Z;
  Mode : Z;
  ModTime : Z
}.

Definition FileMode_IsDir (m : Z) : bool := negb (Z.land m ModeDir =? 0).
Definition FileMode_IsRegular (m : Z) : bool := Z.land m ModeType =? 0.
Definition IsDir (info : FileInfo) : bool := FileMode_IsDir (Mode info).

(** ** Strings and paths *)

Definition strings_HasPrefix (s pre : string) : bool := String.prefix pre s.

(** [strings.TrimPrefix]: [s[len(prefix):]] when [s] starts with [prefix],
    otherwise [s] unchanged. *)
Definition strings_TrimPrefix (s pre : string) : string :=
  if strings_HasPrefix s pre
  then String.substring (String.length pre)
         (String.length s - String.length pre)%nat s
  else s.

Fixpoint endsWithSeparator (s : string) : bool :=
  match s with
  | EmptyString => false
  | String c EmptyString => Ascii.eqb c "/"
  | String _ rest => endsWithSeparator rest
  end.

(** [filepath.Join(dir, name)] as [filepath.Walk] uses it, on a POSIX
    system: [dir] is the cleaned path of a directory and [name] one of the
    names its listing returned, so cleaning changes nothing but the doubled
    separator after the root directory, and an empty [dir] is dropped. *)
Definition filepath_Join (dir name : string) : string :=
  if String.eqb dir "" then name
  else if endsWithSeparator dir then dir ++ name
  else dir ++ "/" ++ name.

(** [encoding/hex]. *)
Definition hextable : string := "0123456789abcdef".

Definition hexDigit (n : N) : ascii :=
  match String.get (N.to_nat n) hextable with
  | Some c => c
  | None => "0"%char
  end.

Fixpoint hex_EncodeToString (src : list byte) : string :=
  match src with
  | [] => ""
  | v :: rest =>
      String (hexDigit (N.shiftr (Byte.to_N v) 4))
        (String (hexDigit (N.land (Byte.to_N v) 15)) (hex_EncodeToString rest))
  end.

(** ** The file system seen by one walk *)

(** What [os.Open] followed by reading to the end yields for a path. *)
Inductive fileContent : Type :=
| OpenFails (err : error)
| ReadFails (err : error)
| Contents (data : list byte).

(** An entry that [os.Lstat] could describe, with what listing it would
    give; the names of a listing come in the order in which the walk takes
    them, each with the outcome of its own [Lstat]. *)
Inductive fsentry : Type :=
| Entry (info : FileInfo) (readDirErr : option error) (children : fslisting)
with fslisting : Type :=
| NoMore
| StatFails (name : string) (err : error) (rest : fslisting)
| Child (name : string) (e : fsentry) (rest : fslisting).

Scheme fsentry_listing_ind := Induction for fsentry Sort Prop
  with fslisting_entry_ind := Induction for fslisting Sort Prop.
Combined Scheme fs_mutind from fsentry_listing_ind, fslisting_entry_ind.

(** ** Computations: state, log, panics *)

Inductive outcome (A : Type) : Type :=
| Done (a : A)
| Panic (msg : string).
Arguments Done {A} a.
Arguments Panic {A} msg.

Definition M (S A : Type) : Type := S -> outcome A * S.

Definition ret {S A} (a : A) : M S A := fun s => (Done a, s).

Definition bind {S A B} (c : M S A) (k : A -> M S B) : M S B :=
  fun s =>
    match c s with
    | (Done a, s') => k a s'
    | (Panic msg, s') => (Panic msg, s')
    end.

Definition panic {S A} (msg : string) : M S A := fun s => (Panic msg, s).

Declare Scope go_scope.
Delimit Scope go_scope with go.
Notation "x <- c ;; k" := (bind c (fun x => k))
  (at level 100, c at next level, right associativity) : go_scope.
Notation "c ;;; k" := (bind c (fun _ => k))
  (at level 100, right associativity) : go_scope.
Local Open Scope go_scope.

(** ** Records of the package *)

Record StatefulFileInfo : Type := mkStatefulFileInfo {
  AlreadySeen : bool;
  FilePath : string;
  PreviousFilePath : string;
  ParentDirPath : string;
  Hash : string;
  Info : FileInfo;
  AbsSearchDirPath : string
}.

(** The calls a walk makes to its surroundings, in the order made.
    [EvWalkFn] marks the traversal handing an entry to [fileWalkFunc]. *)
Inductive event : Type :=
| EvAbs (path : string)
| EvLstat (path : string)
| EvReadDir (path : string)
| EvWalkFn (path : string) (info : option FileInfo) (err : option error)
| EvInclude (path : string) (shouldInclude : bool)
| EvHashFile (path : string) (digest : string) (err : option error)
| EvFound (r : StatefulFileInfo) (res : option error).

(** A [hash.Hash] after everything was written to it: the digest [Sum(nil)]
    returns for the bytes written.  A hasher is taken to be usable and
    fresh for every file, as the one [sha256.New] returns is; what
    [hashFile] does with a nil hasher handed back by [HasherFn] is not
    modelled. *)
Definition hash_Hash : Type := list byte -> list byte.

(** What the platform provides and this package only calls. *)
Record platform : Type := mkPlatform {
  filepath_Abs : string -> error + string;
  filepath_Dir : string -> string;
  sha256_New : unit -> hash_Hash;
  os_Lstat : string -> error + fsentry;
  os_Open : string -> fileContent
}.

Section Filesearch.

Context {U : Type}.
Variable P : platform.

Record FindUniqueFilesConfig : Type := mkConfig {
  TargetDirPath : string;
  Recursive : bool;
  AllowDupes : bool;
  HasherFn : option (unit -> hash_Hash);
  IncludeFileFn : option (string -> U -> bool * U);
  FoundFileFn : option (StatefulFileInfo -> U -> option error * U)
}.

Definition Validate (o : FindUniqueFilesConfig) : option error :=
  match IncludeFileFn o with
  | None => Some (errorString "IncludeFileFn cannot be nil")
  | Some _ =>
      match FoundFileFn o with
      | None => Some (errorString "FoundFileFn cannot be nil")
      | Some _ => None
      end
  end.

Definition pickHasher (o : FindUniqueFilesConfig) : hash_Hash :=
  match HasherFn o with
  | None => sha256_New P tt
  | Some f => f tt
  end.

Record statefulFileWalker : Type := mkWalker {
  absTargetDirPath : string;
  fileHashesToPrevious : gmap string string;
  config : FindUniqueFilesConfig
}.

(** What lies outside the walker: the caller's state and the log. *)
Record world : Type := mkWorld {
  caller : U;
  trace : list event
}.

Record state : Type := mkState {
  self : statefulFileWalker;
  env : world
}.

Definition logWorld (e : event) (w : world) : world :=
  {| caller := caller w; trace := trace w ++ [e] |}.

Definition logEvent (e : event) (s : state) : state :=
  {| self := self s; env := logWorld e (env s) |}.

Definition emit (e : event) : M state unit :=
  fun s => (Done tt, logEvent e s).

Definition getSelf : M state statefulFileWalker :=
  fun s => (Done (self s), s).

Definition setFileHashes (m : gmap string string) : M state unit :=
  fun s =>
    (Done tt,
     {| self := {| absTargetDirPath := absTargetDirPath (self s);
                   fileHashesToPrevious := m;
                   config := config (self s) |};
        env := env s |}).

(** Calling a function value: a nil one panics. *)
Definition callIncludeFileFn (f : option (string -> U -> bool * U))
    (fullFilePath : string) : M state bool :=
  match f with
  | None => panic "invalid memory address or nil pointer dereference"
  | Some fn => fun s =>
      let (b, u) := fn fullFilePath (caller (env s)) in
      (Done b,
       {| self := self s;
          env := {| caller := u;
                    trace := trace (env s) ++ [EvInclude fullFilePath b] |} |})
  end.

Definition callFoundFileFn (f : option (StatefulFileInfo -> U -> option error * U))
    (r : StatefulFileInfo) : M state (option error) :=
  match f with
  | None => panic "invalid memory address or nil pointer dereference"
  | Some fn => fun s =>
      let (res, u) := fn r (caller (env s)) in
      (Done res,
       {| self := self s;
          env := {| caller := u;
                    trace := trace (env s) ++ [EvFound r res] |} |})
  end.

(** [v, ok := m[k]]. *)
Definition mapLookup (m : gmap string string) (k : string) : string * bool :=
  match m !! k with
  | Some v => (v, true)
  | None => ("", false)
  end.

Definition hashFile (filePath : string) (hasher : hash_Hash)
    : string * option error :=
  match os_Open P filePath with
  | OpenFails err => ("", Some err)
  | ReadFails err => ("", Some err)
  | Contents data => (hex_EncodeToString (hasher data), None)
  end.

Definition fileWalkFunc (filePath : string) (info : option FileInfo)
    (err : option error) : M state (option error) :=
  emit (EvWalkFn filePath info err) ;;;
  match err with
  | Some e => ret (Some e)
  | None =>
  match info with
  | None => panic "invalid memory address or nil pointer dereference"
  | Some info =>
    o <- getSelf ;;
    if negb (Recursive (config o)) && IsDir info
       && negb (String.eqb filePath (absTargetDirPath o))
    then ret (Some SkipDir)
    else if IsDir info || negb (FileMode_IsRegular (Mode info))
    then ret None
    else
      inc <- callIncludeFileFn (IncludeFileFn (config o)) filePath ;;
      if negb inc then ret None
      else
        let report (hasBeenSeen : bool) (fileHash previousFilePath : string) :=
          callFoundFileFn (FoundFileFn (config o))
            {| AlreadySeen := hasBeenSeen;
               PreviousFilePath := previousFilePath;
               FilePath := filePath;
               ParentDirPath := filepath_Dir P filePath;
               Hash := fileHash;
               Info := info;
               AbsSearchDirPath := absTargetDirPath o |} in
        if negb (AllowDupes (config o)) then
          let (fileHash, herr) := hashFile filePath (pickHasher (config o)) in
          emit (EvHashFile filePath fileHash herr) ;;;
          match herr with
          | Some e => ret (Some (hashFailure filePath e))
          | None =>
              o' <- getSelf ;;
              let (previousFilePath, hasBeenSeen) :=
                mapLookup (fileHashesToPrevious o') fileHash in
              (if negb hasBeenSeen
               then setFileHashes
                      (<[fileHash := strings_TrimPrefix filePath (absTargetDirPath o)]>
                         (fileHashesToPrevious o'))
               else ret tt) ;;;
              report hasBeenSeen fileHash previousFilePath
          end
        else report false "" ""
  end
  end.

(** ** [filepath.Walk] *)

Section FilepathWalk.

Variable walkFn : string -> option FileInfo -> option error -> M state (option error).

Fixpoint walk (path : string) (e : fsentry) {struct e} : M state (option error) :=
  match e with
  | Entry info readDirErr names =>
      if negb (IsDir info) then walkFn path (Some info) None
      else
        emit (EvReadDir path) ;;;
        err1 <- walkFn path (Some info) readDirErr ;;
        if notNil readDirErr || notNil err1 then ret err1
        else walkNames path names
  end
with walkNames (path : string) (names : fslisting) {struct names}
    : M state (option error) :=
  match names with
  | NoMore => ret None
  | StatFails name lerr rest =>
      let filename := filepath_Join path name in
      emit (EvLstat filename) ;;;
      r <- walkFn filename None (Some lerr) ;;
      match r with
      | Some e' =>
          if negb (isSkipDir e') then ret (Some e') else walkNames path rest
      | None => walkNames path rest
      end
  | Child name (Entry info _ _ as e) rest =>
      let filename := filepath_Join path name in
      emit (EvLstat filename) ;;;
      r <- walk filename e ;;
      match r with
      | Some e' =>
          if negb (IsDir info) || negb (isSkipDir e')
          then ret (Some e')
          else walkNames path rest
      | None => walkNames path rest
      end
  end.

Definition Walk (root : string) : M state (option error) :=
  emit (EvLstat root) ;;;
  err <- match os_Lstat P root with
         | inl lerr => walkFn root None (Some lerr)
         | inr e => walk root e
         end ;;
  match err with
  | Some e => if isSkipDir e || isSkipAll e then ret None else ret (Some e)
  | None => ret None
  end.

End FilepathWalk.

Definition search : M state (option error) :=
  o <- getSelf ;;
  Walk fileWalkFunc (absTargetDirPath o).

Definition newFileWalker (cfg : FindUniqueFilesConfig)
    : M world (error + statefulFileWalker) :=
  match Validate cfg with
  | Some err => ret (inl err)
  | None =>
      fun w =>
        let w' := logWorld (EvAbs (TargetDirPath cfg)) w in
        match filepath_Abs P (TargetDirPath cfg) with
        | inl err => (Done (inl err), w')
        | inr absTargetDirPath =>
            (Done (inr {| absTargetDirPath := absTargetDirPath;
                          fileHashesToPrevious := ∅;
                          config := cfg |}), w')
        end
  end.

Definition FindUniqueFiles (cfg : FindUniqueFilesConfig) : M world (option error) :=
  r <- newFileWalker cfg ;;
  match r with
  | inl err => ret (Some err)
  | inr sfw =>
      fun w =>
        let (res, s) := search {| self := sfw; env := w |} in (res, env s)
  end.

End Filesearch.

(** ** Reading the log and describing one visit *)

Section Observations.

Context {U : Type}.
Variable P : platform.

(** The records handed to [FoundFileFn], oldest first. *)
Fixpoint reports (tr : list event) : list StatefulFileInfo :=
  match tr with
  | [] => []
  | EvFound r _ :: rest => r :: reports rest
  | _ :: rest => reports rest
  end.

(** The earliest record of [l] carrying the digest [h]. *)
Definition firstWith (h : string) (l : list StatefulFileInfo)
    : option StatefulFileInfo :=
  List.find (fun r => String.eqb (Hash r) h) l.

(** The record handed over for the entry at [filePath]. *)
Definition newReport (root filePath : string) (info : FileInfo)
    (hasBeenSeen : bool) (fileHash previousFilePath : string) : StatefulFileInfo :=
  {| AlreadySeen := hasBeenSeen;
     PreviousFilePath := previousFilePath;
     FilePath := filePath;
     ParentDirPath := filepath_Dir P filePath;
     Hash := fileHash;
     Info := info;
     AbsSearchDirPath := root |}.

Definition pruned (cfg : @FindUniqueFilesConfig U) (root filePath : string)
    (info : FileInfo) : bool :=
  negb (Recursive cfg) && IsDir info && negb (String.eqb filePath root).

Definition regularFile (info : FileInfo) : bool :=
  negb (IsDir info) && FileMode_IsRegular (Mode info).

(** The call of [FoundFileFn] that ends a visit. *)
Inductive reportStep (cfg : @FindUniqueFilesConfig U) (u : U) (r : StatefulFileInfo)
    : outcome (option error) -> U -> list event -> Prop :=
| RS_nil msg :
    FoundFileFn cfg = None ->
    reportStep cfg u r (Panic msg) u []
| RS_call g res u' :
    FoundFileFn cfg = Some g ->
    g r u = (res, u') ->
    reportStep cfg u r (Done res) u' [EvFound r res].

(** One call of [fileWalkFunc], by the path taken through its body: the
    result, the dedup index and the caller's state afterwards, and what was
    logged after the [EvWalkFn] entry. *)
Inductive fwfStep (root : string) (idx : gmap string string)
    (cfg : @FindUniqueFilesConfig U) (u : U)
    (p : string) (i : option FileInfo) (e : option error)
    : outcome (option error) -> gmap string string -> U -> list event -> Prop :=
| FS_err err :
    e = Some err ->
    fwfStep root idx cfg u p i e (Done (Some err)) idx u []
| FS_nilInfo msg :
    e = None -> i = None ->
    fwfStep root idx cfg u p i e (Panic msg) idx u []
| FS_prune info :
    e = None -> i = Some info ->
    pruned cfg root p info = true ->
    fwfStep root idx cfg u p i e (Done (Some SkipDir)) idx u []
| FS_skip info :
    e = None -> i = Some info ->
    pruned cfg root p info = false ->
    regularFile info = false ->
    fwfStep root idx cfg u p i e (Done None) idx u []
| FS_nilInclude info msg :
    e = None -> i = Some info ->
    regularFile info = true ->
    IncludeFileFn cfg = None ->
    fwfStep root idx cfg u p i e (Panic msg) idx u []
| FS_rejected info fn u1 :
    e = None -> i = Some info ->
    regularFile info = true ->
    IncludeFileFn cfg = Some fn ->
    fn p u = (false, u1) ->
    fwfStep root idx cfg u p i e (Done None) idx u1 [EvInclude p false]
| FS_hashFail info fn u1 h herr :
    e = None -> i = Some info ->
    regularFile info = true ->
    IncludeFileFn cfg = Some fn ->
    fn p u = (true, u1) ->
    AllowDupes cfg = false ->
    hashFile P p (pickHasher P cfg) = (h, Some herr) ->
    fwfStep root idx cfg u p i e (Done (Some (hashFailure p herr))) idx u1
      [EvInclude p true; EvHashFile p h (Some herr)]
| FS_first info fn u1 h r u2 evs :
    e = None -> i = Some info ->
    regularFile info = true ->
    IncludeFileFn cfg = Some fn ->
    fn p u = (true, u1) ->
    AllowDupes cfg = false ->
    hashFile P p (pickHasher P cfg) = (h, None) ->
    idx !! h = None ->
    reportStep cfg u1 (newReport root p info false h "") r u2 evs ->
    fwfStep root idx cfg u p i e r
      (<[h := strings_TrimPrefix p root]> idx) u2
      (EvInclude p true :: EvHashFile p h None :: evs)
| FS_seen info fn u1 h prev r u2 evs :
    e = None -> i = Some info ->
    regularFile info = true ->
    IncludeFileFn cfg = Some fn ->
    fn p u = (true, u1) ->
    AllowDupes cfg = false ->
    hashFile P p (pickHasher P cfg) = (h, None) ->
    idx !! h = Some prev ->
    reportStep cfg u1 (newReport root p info true h prev) r u2 evs ->
    fwfStep root idx cfg u p i e r idx u2
      (EvInclude p true :: EvHashFile p h None :: evs)
| FS_dupes info fn u1 r u2 evs :
    e = None -> i = Some info ->
    regularFile info = true ->
    IncludeFileFn cfg = Some fn ->
    fn p u = (true, u1) ->
    AllowDupes cfg = true ->
    reportStep cfg u1 (newReport root p info false "" "") r u2 evs ->
    fwfStep root idx cfg u p i e r idx u2 (EvInclude p true :: evs).

(** What the log may hold when duplicates are allowed: no hashing, and
    only records marked unseen with an empty digest. *)
Definition dupesAllowedEvent (ev : event) : Prop :=
  match ev with
  | EvHashFile _ _ _ => False
  | EvFound r _ => AlreadySeen r = false /\ Hash r = "" /\ PreviousFilePath r = ""
  | _ => True
  end.

(** A call of [FoundFileFn] that returned an error other than the two
    sentinels of [filepath.Walk]. *)
Definition callbackFailed (ev : event) : Prop :=
  match ev with
  | EvFound _ (Some e) => isSkipDir e = false /\ isSkipAll e = false
  | _ => False
  end.

(** The predicate accepted a file that cannot be read: opening it or
    reading it fails. *)
Definition acceptedUnreadable (ev : event) : Prop :=
  match ev with
  | EvInclude p true =>
      match os_Open P p with
      | Contents _ => False
      | OpenFails _ | ReadFails _ => True
      end
  | _ => False
  end.

(** The path each found file was reported under, with what the callback
    answered. *)
Fixpoint foundResults (tr : list event) : list (string * option error) :=
  match tr with
  | [] => []
  | EvFound r res :: rest => (FilePath r, res) :: foundResults rest
  | _ :: rest => foundResults rest
  end.

(** The paths handed to [IncludeFileFn]. *)
Fixpoint includedPaths (tr : list event) : list string :=
  match tr with
  | [] => []
  | EvInclude p _ :: rest => p :: includedPaths rest
  | _ :: rest => includedPaths rest
  end.

(** In a record, [AlreadySeen] tells whether [PreviousFilePath] is set. *)
Definition seenIffPrevious (r : StatefulFileInfo) : Prop :=
  AlreadySeen r = true <-> PreviousFilePath r <> "".

(** What the walker stores in the dedup index for a file first seen. *)
Definition storedPath (root filePath : string) : string :=
  strings_TrimPrefix filePath root.

(** The verdict a record must carry, given the records before it: unseen
    when none of them has its digest, otherwise seen, with what was stored
    for the earliest of them. *)
Definition dedupVerdict (root : string) (before : list StatefulFileInfo)
    (r : StatefulFileInfo) : Prop :=
  match firstWith (Hash r) before with
  | None => AlreadySeen r = false /\ PreviousFilePath r = ""
  | Some r0 =>
      AlreadySeen r = true /\ PreviousFilePath r = storedPath root (FilePath r0)
  end.

(** How many records with digest [h] are marked unseen. *)
Definition countUnseen (h : string) (l : list StatefulFileInfo) : nat :=
  List.length
    (List.filter (fun r => String.eqb (Hash r) h && negb (AlreadySeen r)) l).

(** The path an entry of the log is about; [filepath.Abs] is about none
    below the root. *)
Definition eventPath (ev : event) : option string :=
  match ev with
  | EvAbs _ => None
  | EvLstat p | EvReadDir p | EvWalkFn p _ _ | EvInclude p _
  | EvHashFile p _ _ => Some p
  | EvFound r _ => Some (FilePath r)
  end.

Fixpoint listingNames (names : fslisting) : list string :=
  match names with
  | NoMore => []
  | StatFails name _ rest => name :: listingNames rest
  | Child name _ rest => name :: listingNames rest
  end.

(** The root and the entries directly in it. *)
Definition topLevelPaths (root : string) (st : error + fsentry) : list string :=
  root ::
  match st with
  | inl _ => []
  | inr (Entry _ _ names) => List.map (filepath_Join root) (listingNames names)
  end.

Definition atTopLevel (root : string) (st : error + fsentry) (ev : event) : Prop :=
  match eventPath ev with
  | None => True
  | Some p => In p (topLevelPaths root st)
  end.

End Observations.

(** ** Names of directory entries *)

(** A listing never returns an empty name. *)
Definition validName (name : string) : bool := negb (String.eqb name "").

Fixpoint entryNamesOk (V : string -> bool) (e : fsentry) : bool :=
  match e with
  | Entry _ _ names => listingNamesOk V names
  end
with listingNamesOk (V : string -> bool) (names : fslisting) : bool :=
  match names with
  | NoMore => true
  | StatFails name _ rest => V name && listingNamesOk V rest
  | Child name e rest => V name && entryNamesOk V e && listingNamesOk V rest
  end.

Definition entryInfo (e : fsentry) : FileInfo :=
  match e with Entry info _ _ => info end.

(** The names under what [os.Lstat] gave for the root are names a listing
    can return. *)
Definition treeNamesOk (st : error + fsentry) : bool :=
  match st with
  | inl _ => true
  | inr e => entryNamesOk validName e
  end.

(** A result that [filepath.Walk] hands back to its caller as it is: a
    panic, or an error that is neither of the two sentinels. *)
Definition stops (r : outcome (option error)) : Prop :=
  match r with
  | Done (Some e) => isSkipDir e = false /\ isSkipAll e = false
  | Done None => False
  | Panic _ => True
  end.

(** ** A small file system to run the walker on

    [/r] holds two files with the same bytes, a symbolic link, a
    directory with one more file, and a last file. *)

Definition exRegular (name : string) : FileInfo := mkFileInfo name 2 420 0.
Definition exDirectory (name : string) : FileInfo :=
  mkFileInfo name 4096 (Z.lor ModeDir 493) 0.
Definition exSymlink (name : string) : FileInfo :=
  mkFileInfo name 7 (Z.lor ModeSymlink 511) 0.

Definition exTree : fsentry :=
  Entry (exDirectory "r") None
    (Child "a.txt" (Entry (exRegular "a.txt") None NoMore)
    (Child "b.txt" (Entry (exRegular "b.txt") None NoMore)
    (Child "link" (Entry (exSymlink "link") None NoMore)
    (Child "sub"
       (Entry (exDirectory "sub") None
          (Child "c.txt" (Entry (exRegular "c.txt") None NoMore) NoMore))
    (Child "z.txt" (Entry (exRegular "z.txt") None NoMore)
     NoMore))))).

Definition exOpen (path : string) : fileContent :=
  if String.eqb path "/r/sub/c.txt" then Contents [x63]
  else if String.eqb path "/r/z.txt" then Contents []
  else Contents [x68; x69].

Definition exPlatform : platform :=
  {| filepath_Abs := fun _ => inr "/r";
     filepath_Dir := fun _ => "/r";
     sha256_New := fun _ data => data;
     os_Lstat := fun _ => inr exTree;
     os_Open := exOpen |}.

(** The caller counts the calls of its two functions. *)
Definition exConfig (recursive allowDupes : bool) : @FindUniqueFilesConfig nat :=
  {| TargetDirPath := "r";
     Recursive := recursive;
     AllowDupes := allowDupes;
     HasherFn := None;
     IncludeFileFn := Some (fun _ n => (true, S n));
     FoundFileFn := Some (fun _ n => (None, S n)) |}.

Definition exWorld : @world nat := {| caller := O; trace := [] |}.

Definition exWalker (cfg : @FindUniqueFilesConfig nat) : @statefulFileWalker nat :=
  {| absTargetDirPath := "/r"; fileHashesToPrevious := ∅; config := cfg |}.

Definition exStart (cfg : @FindUniqueFilesConfig nat) : @state nat :=
  {| self := exWalker cfg; env := logWorld (EvAbs "r") exWorld |}.

(** A configuration without the predicate. *)
Definition exConfigNoInclude : @FindUniqueFilesConfig nat :=
  {| TargetDirPath := "r";
     Recursive := true;
     AllowDupes := false;
     HasherFn := None;
     IncludeFileFn := None;
     FoundFileFn := Some (fun _ n => (None, S n)) |}.

(** A caller whose [FoundFileFn] always fails. *)
Definition exDiskFull : error := errorString "disk full".

Definition exConfigFailing : @FindUniqueFilesConfig nat :=
  {| TargetDirPath := "r";
     Recursive := true;
     AllowDupes := false;
     HasherFn := None;
     IncludeFileFn := Some (fun _ n => (true, S n));
     FoundFileFn := Some (fun _ n => (Some exDiskFull, S n)) |}.

(** A caller whose [FoundFileFn] answers [filepath.SkipDir] for the file in
    the subdirectory. *)
Definition exConfigSkip : @FindUniqueFilesConfig nat :=
  {| TargetDirPath := "r";
     Recursive := true;
     AllowDupes := false;
     HasherFn := None;
     IncludeFileFn := Some (fun _ n => (true, S n));
     FoundFileFn :=
       Some (fun r n =>
               (if String.eqb (FilePath r) "/r/sub/c.txt" then Some SkipDir
                else None, S n)) |}.

(** The same tree when [/r/a.txt] cannot be opened. *)
Definition exPermission : error := errorString "open /r/a.txt: permission denied".

Definition exPlatformUnreadable : platform :=
  {| filepath_Abs := fun _ => inr "/r";
     filepath_Dir := fun _ => "/r";
     sha256_New := fun _ data => data;
     os_Lstat := fun _ => inr exTree;
     os_Open := fun path =>
       if String.eqb path "/r/a.txt" then OpenFails exPermission
       else exOpen path |}.

(** What the walk has logged when it reaches the first file. *)
Definition exUpToFirstFile : list event :=
  [EvLstat "/r"; EvReadDir "/r"; EvWalkFn "/r" (Some (exDirectory "r")) None;
   EvLstat "/r/a.txt"; EvWalkFn "/r/a.txt" (Some (exRegular "a.txt")) None;
   EvInclude "/r/a.txt" true].

(** The specification's reading of "the file's path relative to the search
    root", for a path at or below the root: the names that lead from the
    root to the file, with no separator in front; this is what
    [filepath.Rel] computes. *)
Definition spec_relativePath (root filePath : string) : string :=
  match strings_TrimPrefix filePath root with
  | EmptyString => "."
  | String c rest => if Ascii.eqb c "/" then rest else String c rest
  end.

(** ** Further observations *)

(** The bytes behind a string of hexadecimal digits as
    [hex_EncodeToString] writes them; [None] for any other string. *)
Definition hexValue (c : ascii) : option N :=
  let n := N_of_ascii c in
  if ((48 <=? n) && (n <=? 57))%N then Some (n - 48)%N
  else if ((97 <=? n) && (n <=? 102))%N then Some (n - 87)%N
  else None.

Definition byteOfHex (c1 c2 : ascii) : option byte :=
  match hexValue c1, hexValue c2 with
  | Some hi, Some lo => Byte.of_N (hi * 16 + lo)
  | _, _ => None
  end.

Fixpoint unhex (s : string) : option (list byte) :=
  match s with
  | EmptyString => Some []
  | String c1 (String c2 rest) =>
      match byteOfHex c1 c2, unhex rest with
      | Some b, Some bs => Some (b :: bs)
      | _, _ => None
      end
  | String _ EmptyString => None
  end.

(** The traversal handed over an error other than the two sentinels. *)
Definition traversalFailed (ev : event) : Prop :=
  match ev with
  | EvWalkFn _ _ (Some e) => isSkipDir e = false /\ isSkipAll e = false
  | _ => False
  end.

(** Nothing went wrong at this entry of the log: no error from the
    traversal, none from hashing, none from [FoundFileFn]. *)
Definition uneventful (ev : event) : bool :=
  match ev with
  | EvWalkFn _ _ (Some _) => false
  | EvHashFile _ _ (Some _) => false
  | EvFound _ (Some _) => false
  | _ => true
  end.

(** The regular files at and below an entry, in the order of the walk. *)
Fixpoint regularPaths (path : string) (e : fsentry) : list string :=
  match e with
  | Entry info _ names =>
      if IsDir info then regularPathsIn path names
      else if FileMode_IsRegular (Mode info) then [path] else []
  end
with regularPathsIn (path : string) (names : fslisting) : list string :=
  match names with
  | NoMore => []
  | StatFails _ _ rest => regularPathsIn path rest
  | Child name e rest =>
      (regularPaths (filepath_Join path name) e ++ regularPathsIn path rest)%list
  end.

Definition regularPathsAt (root : string) (st : error + fsentry) : list string :=
  match st with
  | inl _ => []
  | inr e => regularPaths root e
  end.

(** The regular files directly in a listing, in the order of the walk. *)
Fixpoint regularChildrenIn (path : string) (names : fslisting) : list string :=
  match names with
  | NoMore => []
  | StatFails _ _ rest => regularChildrenIn path rest
  | Child name e rest =>
      ((if regularFile (entryInfo e) then [filepath_Join path name] else [])
         ++ regularChildrenIn path rest)%list
  end.

(** The regular files a walk without recursion comes by: those directly
    in the root, or the root itself when it is one. *)
Definition regularPathsTop (root : string) (st : error + fsentry) : list string :=
  match st with
  | inl _ => []
  | inr (Entry info _ names) =>
      if IsDir info then regularChildrenIn root names
      else if FileMode_IsRegular (Mode info) then [root] else []
  end.

Section RecordContents.

Context {U : Type}.
Variable P : platform.

(** What a record says about the file it is for. *)
Definition reportDescribes (root : string) (r : StatefulFileInfo) : Prop :=
  AbsSearchDirPath r = root
  /\ ParentDirPath r = filepath_Dir P (FilePath r)
  /\ IsDir (Info r) = false
  /\ FileMode_IsRegular (Mode (Info r)) = true.

(** What the [Hash] of a record is. *)
Definition reportHashed (cfg : @FindUniqueFilesConfig U) (r : StatefulFileInfo) : Prop :=
  if AllowDupes cfg then Hash r = ""
  else exists data,
         os_Open P (FilePath r) = Contents data
         /\ Hash r = hex_EncodeToString (pickHasher P cfg data).

End RecordContents.

(** Selections from the log: the paths the predicate accepted, those handed
    to [hashFile], those hashed without error, and those of the records. *)
Definition acceptedPath (ev : event) : option string :=
  match ev with EvInclude p true => Some p | _ => None end.

Definition hashedPath (ev : event) : option string :=
  match ev with EvHashFile p _ _ => Some p | _ => None end.

Definition hashedOkPath (ev : event) : option string :=
  match ev with EvHashFile p _ None => Some p | _ => None end.

Definition reportedPath (ev : event) : option string :=
  match ev with EvFound r _ => Some (FilePath r) | _ => None end.

(** A platform on which the working directory cannot be found. *)
Definition exGetwdFails : error := errorString "getwd: no such file or directory".

Definition exPlatformNoCwd : platform :=
  {| filepath_Abs := fun _ => inl exGetwdFails;
     filepath_Dir := fun _ => "/r";
     sha256_New := fun _ data => data;
     os_Lstat := fun _ => inr exTree;
     os_Open := exOpen |}.

(** The same tree when [/r/sub] cannot be listed. *)
Definition exListFails : error := errorString "open /r/sub: permission denied".

Definition exTreeLocked : fsentry :=
  Entry (exDirectory "r") None
    (Child "a.txt" (Entry (exRegular "a.txt") None NoMore)
    (Child "sub" (Entry (exDirectory "sub") (Some exListFails) NoMore)
    (Child "z.txt" (Entry (exRegular "z.txt") None NoMore)
     NoMore))).

Definition exPlatformLocked : platform :=
  {| filepath_Abs := fun _ => inr "/r";
     filepath_Dir := fun _ => "/r";
     sha256_New := fun _ data => data;
     os_Lstat := fun _ => inr exTreeLocked;
     os_Open := exOpen |}.

(** * Properties *)

Section Properties.

Context {U : Type}.
Variable P : platform.

Abbreviation Config := (@FindUniqueFilesConfig U).
Abbreviation stateOf root idx cfg u tr :=
  (mkState (mkWalker root idx cfg) (mkWorld u tr)).

Lemma fileWalkFunc_step p i e root idx (cfg : Config) u tr :
  exists r idx' u' evs,
    fileWalkFunc P p i e (stateOf root idx cfg u tr)
      = (r, stateOf root idx' cfg u' (tr ++ EvWalkFn p i e :: evs))
    /\ fwfStep P root idx cfg u p i e r idx' u' evs.
Proof.
  unfold fileWalkFunc, bind, emit, getSelf, ret, panic, logEvent, logWorld; simpl.
  destruct e as [err|].
  { eexists _, _, _, _; split; [reflexivity|]. by constructor. }
  destruct i as [info|].
  2:{ eexists _, _, _, _; split; [reflexivity|]. by constructor. }
  cbn. fold (pruned cfg root p info).
  destruct (pruned cfg root p info) eqn:Hpr.
  { eexists _, _, _, _; split; [reflexivity|]. by eapply FS_prune. }
  assert (Hrf : (IsDir info || negb (FileMode_IsRegular (Mode info)))
                = negb (regularFile info)).
  { unfold regularFile. by destruct (IsDir info), (FileMode_IsRegular (Mode info)). }
  rewrite Hrf.
  destruct (regularFile info) eqn:Hreg; simpl.
  2:{ eexists _, _, _, _; split; [reflexivity|]. by eapply FS_skip. }
  unfold callIncludeFileFn, callFoundFileFn, panic.
  destruct (IncludeFileFn cfg) as [fn|] eqn:Hinc; simpl.
  2:{ eexists _, _, _, _; split; [reflexivity|]. by eapply FS_nilInclude. }
  destruct (fn p u) as [[|] u1] eqn:Hfn; simpl.
  2:{ eexists _, _, _, _; split; [rewrite <- app_assoc; reflexivity|].
      by eapply FS_rejected. }
  destruct (AllowDupes cfg) eqn:Hdup; simpl.
  - destruct (FoundFileFn cfg) as [g|] eqn:Hg; simpl.
    + destruct (g _ u1) as [res u2] eqn:Hres.
      eexists _, _, _, _; split; [rewrite <- !app_assoc; reflexivity|].
      eapply FS_dupes; try done. eapply RS_call; try done.
    + eexists _, _, _, _; split; [rewrite <- !app_assoc; reflexivity|].
      eapply FS_dupes; try done. by eapply RS_nil.
  - destruct (hashFile P p (pickHasher P cfg)) as [h [herr|]] eqn:Hh; simpl.
    { eexists _, _, _, _; split; [rewrite <- !app_assoc; reflexivity|].
      by eapply FS_hashFail. }
    unfold mapLookup, setFileHashes; simpl.
    destruct (idx !! h) as [prev|] eqn:Hlk; simpl.
    + destruct (FoundFileFn cfg) as [g|] eqn:Hg; simpl.
      * destruct (g _ u1) as [res u2] eqn:Hres.
        eexists _, _, _, _; split; [rewrite <- !app_assoc; reflexivity|].
        eapply FS_seen; try done. eapply RS_call; try done.
      * eexists _, _, _, _; split; [rewrite <- !app_assoc; reflexivity|].
        eapply FS_seen; try done. by eapply RS_nil.
    + destruct (FoundFileFn cfg) as [g|] eqn:Hg; simpl.
      * destruct (g _ u1) as [res u2] eqn:Hres.
        eexists _, _, _, _; split; [rewrite <- !app_assoc; reflexivity|].
        eapply FS_first; try done. eapply RS_call; try done.
      * eexists _, _, _, _; split; [rewrite <- !app_assoc; reflexivity|].
        eapply FS_first; try done. by eapply RS_nil.
Qed.

(** ** Unfolding [filepath.Walk] *)

Section WalkEquations.

Variable walkFn : string -> option FileInfo -> option error -> M (@state U) (option error).

Lemma walk_file p info rd names s :
  IsDir info = false ->
  walk walkFn p (Entry info rd names) s = walkFn p (Some info) None s.
Proof. intros H. cbn [walk]. by rewrite H. Qed.

Lemma walk_dir p info rd names s :
  IsDir info = true ->
  walk walkFn p (Entry info rd names) s =
  match walkFn p (Some info) rd (logEvent (EvReadDir p) s) with
  | (Done err1, s1) =>
      if notNil rd || notNil err1 then (Done err1, s1)
      else walkNames walkFn p names s1
  | (Panic msg, s1) => (Panic msg, s1)
  end.
Proof.
  intros H. cbn [walk]. rewrite H. cbn [negb]. unfold bind, emit.
  destruct (walkFn p (Some info) rd _) as [[err1|msg] s1]; [|done].
  by destruct (notNil rd || notNil err1).
Qed.

Lemma walkNames_StatFails p name lerr rest s :
  walkNames walkFn p (StatFails name lerr rest) s =
  match walkFn (filepath_Join p name) None (Some lerr)
          (logEvent (EvLstat (filepath_Join p name)) s) with
  | (Done (Some e'), s1) =>
      if isSkipDir e' then walkNames walkFn p rest s1 else (Done (Some e'), s1)
  | (Done None, s1) => walkNames walkFn p rest s1
  | (Panic msg, s1) => (Panic msg, s1)
  end.
Proof.
  cbn [walkNames]. unfold bind, emit.
  destruct (walkFn _ None _ _) as [[[e'|]|msg] s1]; try done.
  by destruct (isSkipDir e').
Qed.

Lemma walkNames_Child p name e rest s :
  walkNames walkFn p (Child name e rest) s =
  match walk walkFn (filepath_Join p name) e
          (logEvent (EvLstat (filepath_Join p name)) s) with
  | (Done (Some e'), s1) =>
      if negb (IsDir (entryInfo e)) || negb (isSkipDir e')
      then (Done (Some e'), s1)
      else walkNames walkFn p rest s1
  | (Done None, s1) => walkNames walkFn p rest s1
  | (Panic msg, s1) => (Panic msg, s1)
  end.
Proof.
  destruct e as [info rd names].
  change (walkNames walkFn p (Child name (Entry info rd names) rest) s)
    with (bind (emit (EvLstat (filepath_Join p name)))
            (fun _ => bind (walk walkFn (filepath_Join p name) (Entry info rd names))
               (fun r => match r with
                         | Some e' =>
                             if negb (IsDir info) || negb (isSkipDir e')
                             then ret (Some e')
                             else walkNames walkFn p rest
                         | None => walkNames walkFn p rest
                         end)) s).
  unfold bind, emit. cbn [entryInfo].
  destruct (walk walkFn _ _ _) as [[[e'|]|msg] s1]; try done.
  by destruct (negb (IsDir info) || negb (isSkipDir e')).
Qed.

Lemma Walk_unfold root s :
  Walk P walkFn root s =
  match (match os_Lstat P root with
         | inl lerr => walkFn root None (Some lerr)
         | inr e => walk walkFn root e
         end) (logEvent (EvLstat root) s) with
  | (Done (Some e), s1) =>
      if isSkipDir e || isSkipAll e then (Done None, s1) else (Done (Some e), s1)
  | (Done None, s1) => (Done None, s1)
  | (Panic msg, s1) => (Panic msg, s1)
  end.
Proof.
  unfold Walk, bind, emit.
  destruct (os_Lstat P root) as [lerr|ent].
  - destruct (walkFn root None (Some lerr) _) as [[[e|]|msg] s1]; try done.
    by destruct (isSkipDir e || isSkipAll e).
  - destruct (walk walkFn root ent _) as [[[e|]|msg] s1]; try done.
    by destruct (isSkipDir e || isSkipAll e).
Qed.

End WalkEquations.

(** ** A proof rule for [filepath.Walk]

    [I] holds of the state as long as the traversal goes on; [A] describes
    the states in which it was cut short, together with the result that cut
    it.  [R] singles out the paths strictly below the root, [R0] those at or
    below it. *)
Section WalkRule.

Variable walkFn : string -> option FileInfo -> option error -> M (@state U) (option error).
Variable I : @state U -> Prop.
Variable A : outcome (option error) -> @state U -> Prop.
Variable V : string -> bool.
Variables R0 R : string -> Prop.

Abbreviation post x := (I (snd x) \/ A (fst x) (snd x)).

Hypothesis R_child : forall p n, R0 p -> V n = true -> R (filepath_Join p n).
Hypothesis R_R0 : forall p, R p -> R0 p.
Hypothesis I_lstat : forall p s, I s -> I (logEvent (EvLstat p) s).
Hypothesis I_readdir : forall p s, I s -> I (logEvent (EvReadDir p) s).
Hypothesis fn_ok : forall p i e s,
  R p \/ (R0 p /\ forall info, i = Some info -> IsDir info = true) ->
  I s -> post (walkFn p i e s).
Hypothesis A_stops : forall r s, A r s -> stops r.

Lemma walk_rule :
  (forall e p s,
      entryNamesOk V e = true ->
      R p \/ (R0 p /\ IsDir (entryInfo e) = true) ->
      I s -> post (walk walkFn p e s))
  /\ (forall names p s,
      listingNamesOk V names = true ->
      R0 p -> I s -> post (walkNames walkFn p names s)).
Proof.
  apply fs_mutind.
  - intros info rd names IH p s Hok HR HI. cbn [entryInfo entryNamesOk] in *.
    destruct (IsDir info) eqn:Hdir.
    + rewrite walk_dir by done.
      assert (Hfn : post (walkFn p (Some info) rd (logEvent (EvReadDir p) s))).
      { apply fn_ok; [|by apply I_readdir]. right. split.
        - destruct HR as [HR|[HR _]]; auto.
        - by intros ? [= <-]. }
      destruct (walkFn p (Some info) rd (logEvent (EvReadDir p) s)) as [[err1|msg] s1].
      2:{ exact Hfn. }
      cbn [fst snd] in Hfn. destruct Hfn as [HI1|HA1].
      * destruct (notNil rd || notNil err1); [by left|].
        apply IH; auto. destruct HR as [HR|[HR _]]; auto.
      * pose proof (A_stops _ _ HA1) as Hst.
        destruct err1 as [e1|]; [|done]. cbn [notNil].
        rewrite orb_true_r. by right.
    + rewrite walk_file by done.
      apply fn_ok; [|done]. destruct HR as [HR|[_ HR]]; [by left|done].
  - intros p s _ _ HI. by left.
  - intros name lerr rest IH p s Hok HR HI. cbn [listingNamesOk] in *.
    apply andb_prop in Hok as [Hn Hrest].
    rewrite walkNames_StatFails.
    assert (Hfn : post (walkFn (filepath_Join p name) None (Some lerr)
                          (logEvent (EvLstat (filepath_Join p name)) s))).
    { apply fn_ok; [|by apply I_lstat]. left. by apply R_child. }
    destruct (walkFn (filepath_Join p name) None (Some lerr) _) as [[r|msg] s1].
    2:{ exact Hfn. }
    cbn [fst snd] in Hfn. destruct Hfn as [HI1|HA1].
    + destruct r as [e'|]; [|by apply IH].
      destruct (isSkipDir e'); [by apply IH|by left].
    + pose proof (A_stops _ _ HA1) as Hst.
      destruct r as [e'|]; [|done]. destruct Hst as [-> _]. by right.
  - intros name e IHe rest IH p s Hok HR HI. cbn [listingNamesOk] in *.
    apply andb_prop in Hok as [Hok Hrest]. apply andb_prop in Hok as [Hn He].
    rewrite walkNames_Child.
    assert (Hw : post (walk walkFn (filepath_Join p name) e
                         (logEvent (EvLstat (filepath_Join p name)) s))).
    { apply IHe; [done| |by apply I_lstat]. left. by apply R_child. }
    destruct (walk walkFn (filepath_Join p name) e _) as [[r|msg] s1].
    2:{ exact Hw. }
    cbn [fst snd] in Hw. destruct Hw as [HI1|HA1].
    + destruct r as [e'|]; [|by apply IH].
      destruct (negb (IsDir (entryInfo e)) || negb (isSkipDir e'));
        [by left|by apply IH].
    + pose proof (A_stops _ _ HA1) as Hst.
      destruct r as [e'|]; [|done]. destruct Hst as [-> _].
      rewrite orb_true_r. by right.
Qed.

Lemma Walk_rule root s :
  R0 root ->
  (forall e, os_Lstat P root = inr e ->
     entryNamesOk V e = true /\ (R root \/ IsDir (entryInfo e) = true)) ->
  I s -> post (Walk P walkFn root s).
Proof.
  intros HR0 Hroot HI. rewrite Walk_unfold.
  set (s0 := logEvent (EvLstat root) s).
  assert (HI0 : I s0) by by apply I_lstat.
  assert (Hw : post ((match os_Lstat P root with
                      | inl lerr => walkFn root None (Some lerr)
                      | inr e => walk walkFn root e
                      end) s0)).
  { destruct (os_Lstat P root) as [lerr|e] eqn:Hl.
    - apply fn_ok; [|done]. right. split; [done|]. intros ? [=].
    - destruct (Hroot e eq_refl) as [Hok Hc].
      apply walk_rule; [done| |done]. destruct Hc; auto. }
  destruct ((match os_Lstat P root with
             | inl lerr => walkFn root None (Some lerr)
             | inr e => walk walkFn root e
             end) s0) as [[r|msg] s1].
  2:{ exact Hw. }
  cbn [fst snd] in Hw. destruct Hw as [HI1|HA1].
  - left. destruct r as [e|]; [|done]. by destruct (isSkipDir e || isSkipAll e).
  - pose proof (A_stops _ _ HA1) as Hst.
    destruct r as [e|]; [|done]. destruct Hst as [-> ->]. by right.
Qed.

End WalkRule.

(** ** Arguments that one run tracks another *)
Section WalkFrame.

Variable walkFn : string -> option FileInfo -> option error -> M (@state U) (option error).
Variable T : @state U -> @state U.
Variable Inv : @state U -> Prop.

Hypothesis T_log : forall e s, T (logEvent e s) = logEvent e (T s).
Hypothesis Inv_log : forall e s, Inv s -> Inv (logEvent e s).
Hypothesis fn_frame : forall p i e s,
  Inv s ->
  walkFn p i e (T s) = (fst (walkFn p i e s), T (snd (walkFn p i e s)))
  /\ Inv (snd (walkFn p i e s)).

Abbreviation tracks c s :=
  (c (T s) = (fst (c s), T (snd (c s))) /\ Inv (snd (c s))).

Lemma walk_frame :
  (forall e p s, Inv s -> tracks (walk walkFn p e) s)
  /\ (forall names p s, Inv s -> tracks (walkNames walkFn p names) s).
Proof.
  apply fs_mutind.
  - intros info rd names IH p s HI.
    destruct (IsDir info) eqn:Hdir.
    + rewrite !walk_dir by done. rewrite <- T_log.
      destruct (fn_frame p (Some info) rd (logEvent (EvReadDir p) s))
        as [-> HI1]; [by apply Inv_log|].
      destruct (walkFn p (Some info) rd (logEvent (EvReadDir p) s))
        as [[err1|msg] s1]; cbn [fst snd] in *; [|done].
      destruct (notNil rd || notNil err1); [done|]. by apply IH.
    + rewrite !walk_file by done. by apply fn_frame.
  - intros p s HI. done.
  - intros name lerr rest IH p s HI.
    rewrite !walkNames_StatFails. rewrite <- T_log.
    destruct (fn_frame (filepath_Join p name) None (Some lerr)
                (logEvent (EvLstat (filepath_Join p name)) s))
      as [-> HI1]; [by apply Inv_log|].
    destruct (walkFn (filepath_Join p name) None (Some lerr) _)
      as [[[e'|]|msg] s1]; cbn [fst snd] in *; [|by apply IH|done].
    destruct (isSkipDir e'); [by apply IH|done].
  - intros name e IHe rest IH p s HI.
    rewrite !walkNames_Child. rewrite <- T_log.
    destruct (IHe (filepath_Join p name)
                (logEvent (EvLstat (filepath_Join p name)) s))
      as [-> HI1]; [by apply Inv_log|].
    destruct (walk walkFn (filepath_Join p name) e _)
      as [[[e'|]|msg] s1]; cbn [fst snd] in *; [|by apply IH|done].
    destruct (negb (IsDir (entryInfo e)) || negb (isSkipDir e')); [done|].
    by apply IH.
Qed.

Lemma Walk_frame root s : Inv s -> tracks (Walk P walkFn root) s.
Proof.
  intros HI. rewrite !Walk_unfold. rewrite <- T_log.
  assert (Hw : tracks (match os_Lstat P root with
                       | inl lerr => walkFn root None (Some lerr)
                       | inr e => walk walkFn root e
                       end) (logEvent (EvLstat root) s)).
  { destruct (os_Lstat P root) as [lerr|e].
    - apply fn_frame. by apply Inv_log.
    - apply walk_frame. by apply Inv_log. }
  destruct Hw as [-> HI1].
  destruct ((match os_Lstat P root with
             | inl lerr => walkFn root None (Some lerr)
             | inr e => walk walkFn root e
             end) (logEvent (EvLstat root) s)) as [[[e|]|msg] s1];
    cbn [fst snd] in *; try done.
  by destruct (isSkipDir e || isSkipAll e).
Qed.

End WalkFrame.

(** ** The rule specialised to [search] *)

Lemma namesOk_any :
  (forall e, entryNamesOk (fun _ => true) e = true)
  /\ (forall names, listingNamesOk (fun _ => true) names = true).
Proof.
  apply fs_mutind; cbn [entryNamesOk listingNamesOk]; intros; auto.
  by rewrite H, H0.
Qed.

Lemma search_unfold root idx (cfg : Config) u tr :
  search P (stateOf root idx cfg u tr)
  = Walk P (fileWalkFunc P) root (stateOf root idx cfg u tr).
Proof. reflexivity. Qed.

Section SearchRule.

Variable root : string.
Variable cfg : Config.
Variable J : gmap string string -> list event -> Prop.
Variable B : outcome (option error) -> gmap string string -> list event -> Prop.
Variable V : string -> bool.
Variables R0 R : string -> Prop.

Hypothesis R_child : forall p n, R0 p -> V n = true -> R (filepath_Join p n).
Hypothesis R_R0 : forall p, R p -> R0 p.
Hypothesis J_lstat : forall p idx tr, J idx tr -> J idx (tr ++ [EvLstat p]).
Hypothesis J_readdir : forall p idx tr, J idx tr -> J idx (tr ++ [EvReadDir p]).
Hypothesis step_ok : forall p i e idx u tr r idx' u' evs,
  R p \/ (R0 p /\ forall info, i = Some info -> IsDir info = true) ->
  J idx tr ->
  fwfStep P root idx cfg u p i e r idx' u' evs ->
  J idx' (tr ++ EvWalkFn p i e :: evs) \/ B r idx' (tr ++ EvWalkFn p i e :: evs).
Hypothesis B_stops : forall r idx tr, B r idx tr -> stops r.

Lemma search_rule idx u tr :
  R0 root ->
  (forall e, os_Lstat P root = inr e ->
     entryNamesOk V e = true /\ (R root \/ IsDir (entryInfo e) = true)) ->
  J idx tr ->
  exists r idx' u' tr',
    search P (stateOf root idx cfg u tr) = (r, stateOf root idx' cfg u' tr')
    /\ (J idx' tr' \/ B r idx' tr').
Proof.
  intros HR0 Hroot HJ. rewrite search_unfold.
  set (I := fun s : @state U =>
              absTargetDirPath (self s) = root /\ config (self s) = cfg
              /\ J (fileHashesToPrevious (self s)) (trace (env s))).
  set (A := fun (r : outcome (option error)) (s : @state U) =>
              absTargetDirPath (self s) = root /\ config (self s) = cfg
              /\ B r (fileHashesToPrevious (self s)) (trace (env s))).
  assert (Hpost : I (snd (Walk P (fileWalkFunc P) root (stateOf root idx cfg u tr)))
                  \/ A (fst (Walk P (fileWalkFunc P) root (stateOf root idx cfg u tr)))
                       (snd (Walk P (fileWalkFunc P) root (stateOf root idx cfg u tr)))).
  { apply (Walk_rule (fileWalkFunc P) I A V R0 R); try done.
    - intros p [[r0 i0 c0] [u0 t0]] (? & ? & ?). repeat split; try done.
      by apply J_lstat.
    - intros p [[r0 i0 c0] [u0 t0]] (? & ? & ?). repeat split; try done.
      by apply J_readdir.
    - intros p i e [[r0 i0 c0] [u0 t0]] HR (Hr & Hc & HJ0). cbn in Hr, Hc, HJ0.
      subst r0 c0.
      destruct (fileWalkFunc_step p i e root i0 cfg u0 t0)
        as (r & idx' & u' & evs & -> & Hstep). cbn [fst snd].
      destruct (step_ok _ _ _ _ _ _ _ _ _ _ HR HJ0 Hstep); [left|right]; done.
    - intros r s (_ & _ & HB). by eapply B_stops. }
  destruct (Walk P (fileWalkFunc P) root (stateOf root idx cfg u tr))
    as [r [[r1 i1 c1] [u1 t1]]].
  cbn [fst snd] in Hpost.
  destruct Hpost as [(Hr & Hc & HJ1)|(Hr & Hc & HB1)]; cbn in Hr, Hc; subst r1 c1;
    eexists _, _, _, _; (split; [reflexivity|]); [by left|by right].
Qed.

End SearchRule.

(** The rule when paths and names do not matter. *)
Lemma search_inv root (cfg : Config)
    (J : gmap string string -> list event -> Prop)
    (B : outcome (option error) -> gmap string string -> list event -> Prop) :
  (forall p idx (tr : list event), J idx tr -> J idx (tr ++ [EvLstat p])%list) ->
  (forall p idx (tr : list event), J idx tr -> J idx (tr ++ [EvReadDir p])%list) ->
  (forall p i e idx u (tr : list event) r idx' u' evs,
      J idx tr ->
      fwfStep P root idx cfg u p i e r idx' u' evs ->
      J idx' (tr ++ EvWalkFn p i e :: evs)%list
      \/ B r idx' (tr ++ EvWalkFn p i e :: evs)%list) ->
  (forall r idx tr, B r idx tr -> stops r) ->
  forall idx u tr,
    J idx tr ->
    exists r idx' u' tr',
      search P (stateOf root idx cfg u tr) = (r, stateOf root idx' cfg u' tr')
      /\ (J idx' tr' \/ B r idx' tr').
Proof.
  intros Hl Hr Hs Hb idx u tr HJ.
  apply (search_rule root cfg J B (fun _ => true) (fun _ => True) (fun _ => True));
    try done.
  - intros. by eapply Hs.
  - intros e _. split; [apply namesOk_any|by left].
Qed.

Lemma newFileWalker_ok (cfg : Config) w sfw w1 :
  newFileWalker P cfg w = (Done (inr sfw), w1) ->
  exists root fi fo,
    filepath_Abs P (TargetDirPath cfg) = inr root
    /\ IncludeFileFn cfg = Some fi /\ FoundFileFn cfg = Some fo
    /\ sfw = mkWalker root ∅ cfg
    /\ w1 = logWorld (EvAbs (TargetDirPath cfg)) w.
Proof.
  unfold newFileWalker, Validate, ret.
  destruct (IncludeFileFn cfg) as [fi|]; [|done].
  destruct (FoundFileFn cfg) as [fo|]; [|done].
  destruct (filepath_Abs P (TargetDirPath cfg)) as [err|root]; [done|].
  intros [= <- <-]. by eexists _, _, _.
Qed.

(** ** Construction *)

(** C8: when [IncludeFileFn] or [FoundFileFn] is nil, construction fails
    with the validation error, and it does so with the world untouched:
    nothing was logged, so neither [filepath.Abs] nor any other call to the
    file system was made. *)
Theorem C8_validation_precedes_filesystem (cfg : Config) (w : world) :
  IncludeFileFn cfg = None \/ FoundFileFn cfg = None ->
  exists msg,
    Validate cfg = Some (errorString msg)
    /\ newFileWalker P cfg w = (Done (inl (errorString msg)), w)
    /\ FindUniqueFiles P cfg w = (Done (Some (errorString msg)), w).
Proof.
  intros H. unfold FindUniqueFiles, newFileWalker, bind, ret, Validate.
  destruct (IncludeFileFn cfg) as [fi|].
  - destruct H as [H|H]; [done|]. rewrite H. by eexists.
  - by eexists.
Qed.

(** ** Duplicates allowed *)

Lemma fileWalkFunc_dupes p i e root m m0 (cfg : Config) u tr :
  AllowDupes cfg = true ->
  fileWalkFunc P p i e (stateOf root m cfg u tr)
  = (fst (fileWalkFunc P p i e (stateOf root m0 cfg u tr)),
     mkState (mkWalker root m cfg)
       (env (snd (fileWalkFunc P p i e (stateOf root m0 cfg u tr))))).
Proof.
  intros Hdup.
  unfold fileWalkFunc, bind, emit, getSelf, ret, panic, logEvent, logWorld; simpl.
  destruct e as [err|]; [done|]. destruct i as [info|]; [|done]. cbn.
  fold (pruned cfg root p info).
  destruct (pruned cfg root p info); [done|].
  destruct (IsDir info || negb (FileMode_IsRegular (Mode info))); [done|].
  unfold callIncludeFileFn, callFoundFileFn, panic.
  destruct (IncludeFileFn cfg) as [fn|]; cbn; [|done].
  destruct (fn p u) as [[|] u1]; cbn; [|done].
  rewrite Hdup; cbn.
  destruct (FoundFileFn cfg) as [g|]; cbn; [|done].
  by destruct (g _ u1).
Qed.

(** C9: with [AllowDupes] set the dedup index is neither written nor
    read during the walk: it is empty at the end as it was at the start, and
    had it held anything else, the walk would have returned the same result
    and left the same world, with the index again as it was. *)
Theorem C9_index_untouched_when_dupes_allowed (cfg : Config) w sfw w1 :
  AllowDupes cfg = true ->
  newFileWalker P cfg w = (Done (inr sfw), w1) ->
  fileHashesToPrevious (self (snd (search P (mkState sfw w1)))) = ∅
  /\ forall m : gmap string string,
       search P (mkState (mkWalker (absTargetDirPath sfw) m cfg) w1)
       = (fst (search P (mkState sfw w1)),
          mkState (mkWalker (absTargetDirPath sfw) m cfg)
            (env (snd (search P (mkState sfw w1))))).
Proof.
  intros Hdup Hnew.
  destruct (newFileWalker_ok _ _ _ _ Hnew) as (root & fi & fo & _ & _ & _ & -> & ->).
  cbn [absTargetDirPath]. destruct w as [u tr]. unfold logWorld; cbn [caller trace].
  set (tr1 := (tr ++ [EvAbs (TargetDirPath cfg)])%list).
  split.
  - destruct (search_inv root cfg (fun idx _ => idx = ∅) (fun _ _ _ => False))
      with (idx := (∅ : gmap string string)) (u := u) (tr := tr1)
      as (r & idx' & u' & tr' & -> & [->|[]]); try done.
    intros p i e idx u0 tr0 r idx' u' evs -> Hstep.
    left. inversion Hstep; subst; congruence.
  - intros m. rewrite !search_unfold.
    set (T := fun s : @state U =>
                mkState (mkWalker (absTargetDirPath (self s)) m (config (self s)))
                  (env s)).
    set (Inv := fun s : @state U => AllowDupes (config (self s)) = true
                                    /\ absTargetDirPath (self s) = root
                                    /\ config (self s) = cfg).
    destruct (Walk_frame (fileWalkFunc P) T Inv) with (root := root)
      (s := stateOf root (∅ : gmap string string) cfg u tr1) as [Heq [_ [Hr Hc]]].
    + done.
    + intros e s (? & ? & ?). done.
    + intros p i e [[r0 i0 c0] [u0 t0]] (Hd & Hr & Hc). cbn in Hd, Hr, Hc. subst r0 c0.
      split.
      * unfold T; cbn [self env absTargetDirPath config].
        rewrite (fileWalkFunc_dupes p i e root m i0) by done.
        destruct (fileWalkFunc_step p i e root i0 cfg u0 t0)
          as (r & idx' & u' & evs & -> & _). done.
      * destruct (fileWalkFunc_step p i e root i0 cfg u0 t0)
          as (r & idx' & u' & evs & -> & _). done.
    + done.
    + unfold T in Heq; cbn [self env absTargetDirPath config] in Heq.
      rewrite Heq, Hr, Hc. done.
Qed.

(** C4: with [AllowDupes] set no file is hashed, every record handed to
    [FoundFileFn] has [AlreadySeen = false] and an empty [Hash] (and an
    empty [PreviousFilePath]), and every file the predicate accepted got
    such a record, whatever the files contain. *)
Theorem C4_dupes_allowed_reports (cfg : Config) u sfw w1 :
  AllowDupes cfg = true ->
  newFileWalker P cfg (mkWorld u []) = (Done (inr sfw), w1) ->
  let tr := trace (env (snd (search P (mkState sfw w1)))) in
  Forall dupesAllowedEvent tr
  /\ forall p, In (EvInclude p true) tr ->
       exists r res, In (EvFound r res) tr /\ FilePath r = p
                     /\ AlreadySeen r = false /\ Hash r = "".
Proof.
  intros Hdup Hnew.
  destruct (newFileWalker_ok _ _ _ _ Hnew) as (root & fi & fo & _ & _ & Hfo & -> & ->).
  unfold logWorld; cbn [caller trace app].
  set (J := fun (_ : gmap string string) (tr : list event) =>
              Forall dupesAllowedEvent tr
              /\ forall p, In (EvInclude p true) tr ->
                   exists r res, In (EvFound r res) tr /\ FilePath r = p
                                 /\ AlreadySeen r = false /\ Hash r = "").
  destruct (search_inv root cfg J (fun _ _ _ => False))
    with (idx := (∅ : gmap string string)) (u := u) (tr := [EvAbs (TargetDirPath cfg)])
    as (r & idx' & u' & tr' & -> & [HJ|[]]); try done.
  - intros p idx tr [HF HI]. split.
    + apply Forall_app. split; [done|]. by repeat constructor.
    + intros q [Hq|[Hq|[]]]%in_app_iff; [|done].
      destruct (HI q Hq) as (r0 & res0 & ? & ?). exists r0, res0.
      rewrite in_app_iff. auto.
  - intros p idx tr [HF HI]. split.
    + apply Forall_app. split; [done|]. by repeat constructor.
    + intros q [Hq|[Hq|[]]]%in_app_iff; [|done].
      destruct (HI q Hq) as (r0 & res0 & ? & ?). exists r0, res0.
      rewrite in_app_iff. auto.
  - intros p i e idx u0 tr r0 idx' u1 evs [HF HI] Hstep. left.
    assert (Hold : forall q, In (EvInclude q true) tr ->
              exists r res, In (EvFound r res) (tr ++ EvWalkFn p i e :: evs)
                            /\ FilePath r = q /\ AlreadySeen r = false /\ Hash r = "").
    { intros q Hq. destruct (HI q Hq) as (r1 & res1 & ? & ?). exists r1, res1.
      rewrite in_app_iff. auto. }
    inversion Hstep; subst; try congruence.
    1-6: split; [apply Forall_app; split; [done|by repeat constructor]|].
    1-6: intros q [Hq|Hq]%in_app_iff; [by apply Hold|];
         cbn in Hq; intuition congruence.
    match goal with H : reportStep _ _ _ _ _ _ |- _ => inversion H; subst end;
      [congruence|].
    split.
    + apply Forall_app; split; [done|]. by repeat constructor.
    + intros q [Hq|Hq]%in_app_iff; [by apply Hold|].
      cbn in Hq. destruct Hq as [Hq|[Hq|[Hq|[]]]]; try done.
      injection Hq as <-. eexists _, _. split.
      * apply in_app_iff. right. right. right. left. reflexivity.
      * done.
  - split; [by repeat constructor|]. intros q [Hq|[]]. done.
Qed.

(** ** Which entries reach the predicate *)

Lemma regular_not_dir info :
  FileMode_IsRegular (Mode info) = true -> IsDir info = false.
Proof.
  unfold FileMode_IsRegular, IsDir, FileMode_IsDir. intros H%Z.eqb_eq.
  assert (Hd : ModeDir = Z.land ModeType ModeDir) by reflexivity.
  rewrite Hd, Z.land_assoc, H, Z.land_0_l. reflexivity.
Qed.

(** C3, in the form the code satisfies: the include predicate is invoked with the path of
    every visited entry that is a regular file, and with no other path:
    whenever it is invoked, an entry with that path was visited that is not
    a directory and whose mode is regular.  Symbolic links, devices and
    named pipes stop at the guard before the predicate. *)
Theorem C3_include_called_for_regular_files (cfg : Config) u sfw w1 :
  newFileWalker P cfg (mkWorld u []) = (Done (inr sfw), w1) ->
  let tr := trace (env (snd (search P (mkState sfw w1)))) in
  (forall p info,
      In (EvWalkFn p (Some info) None) tr ->
      FileMode_IsRegular (Mode info) = true ->
      exists b, In (EvInclude p b) tr)
  /\ (forall p b,
      In (EvInclude p b) tr ->
      exists info, In (EvWalkFn p (Some info) None) tr
                   /\ IsDir info = false
                   /\ FileMode_IsRegular (Mode info) = true).
Proof.
  intros Hnew.
  destruct (newFileWalker_ok _ _ _ _ Hnew) as (root & fi & fo & _ & Hfi & _ & -> & ->).
  unfold logWorld; cbn [caller trace app].
  set (J := fun (_ : gmap string string) (tr : list event) =>
              (forall p info,
                  In (EvWalkFn p (Some info) None) tr ->
                  FileMode_IsRegular (Mode info) = true ->
                  exists b, In (EvInclude p b) tr)
              /\ (forall p b,
                  In (EvInclude p b) tr ->
                  exists info, In (EvWalkFn p (Some info) None) tr
                               /\ IsDir info = false
                               /\ FileMode_IsRegular (Mode info) = true)).
  assert (Hmono : forall idx tr evs,
            J idx tr ->
            (forall p info, In (EvWalkFn p (Some info) None) evs ->
               FileMode_IsRegular (Mode info) = true ->
               exists b, In (EvInclude p b) evs) ->
            (forall p b, In (EvInclude p b) evs ->
               exists info, In (EvWalkFn p (Some info) None) evs
                            /\ IsDir info = false
                            /\ FileMode_IsRegular (Mode info) = true) ->
            J idx (tr ++ evs)%list).
  { intros idx tr evs [H1 H2] H3 H4. split.
    - intros p info [Hin|Hin]%in_app_iff Hreg.
      + destruct (H1 p info Hin Hreg) as [b Hb]. exists b. apply in_app_iff; auto.
      + destruct (H3 p info Hin Hreg) as [b Hb]. exists b. apply in_app_iff; auto.
    - intros p b [Hin|Hin]%in_app_iff.
      + destruct (H2 p b Hin) as (info & ? & ?). exists info.
        rewrite in_app_iff; auto.
      + destruct (H4 p b Hin) as (info & ? & ?). exists info.
        rewrite in_app_iff; auto. }
  destruct (search_inv root cfg J (fun _ _ _ => False))
    with (idx := (∅ : gmap string string)) (u := u) (tr := [EvAbs (TargetDirPath cfg)])
    as (r & idx' & u' & tr' & -> & [HJ|[]]); try done.
  - intros p idx tr HJ. apply Hmono; [done| |]; intros ? ? [[=]|[]].
  - intros p idx tr HJ. apply Hmono; [done| |]; intros ? ? [[=]|[]].
  - intros p i e idx u0 tr r0 idx' u1 evs HJ Hstep. left.
    apply Hmono; [done| |].
    + intros q info [[= -> -> ->]|Hin] Hreg.
      * pose proof (regular_not_dir _ Hreg) as Hnd.
        inversion Hstep; subst; try congruence;
          repeat match goal with
                 | H : Some _ = Some _ |- _ => injection H as <-
                 end;
          try (eexists; right; left; reflexivity).
        -- unfold pruned in *. rewrite Hnd in *.
           rewrite andb_false_r in *. done.
        -- unfold regularFile in *. rewrite Hnd, Hreg in *. done.
      * inversion Hstep; subst; cbn in Hin;
          repeat match goal with
                 | H : reportStep _ _ _ _ _ _ |- _ => inversion H; subst; clear H
                 end; cbn in Hin; intuition congruence.
    + intros q b [[=]|Hin].
      assert (Hq : q = p /\ exists info, i = Some info /\ e = None
                                   /\ regularFile info = true).
      { inversion Hstep; subst; cbn in Hin;
          repeat match goal with
                 | H : reportStep _ _ _ _ _ _ |- _ => inversion H; subst; clear H
                 end; cbn in Hin;
          repeat match goal with
                 | H : _ \/ _ |- _ => destruct H as [H|H]
                 end; try done; try congruence;
          injection Hin as <- <-; (split; [done|]); by eexists. }
      destruct Hq as (-> & info & -> & -> & Hreg).
      exists info. split; [by left|].
      unfold regularFile in Hreg. apply andb_prop in Hreg as [Hd Hr].
      split; [by destruct (IsDir info)|done].
  - split; [intros ? ? [[=]|[]]|intros ? ? [[=]|[]]].
Qed.

(** ** Failures that end the walk *)

(** A log that is clean up to its last entry has one place only for an
    entry that is not. *)
Lemma last_event_unique {A} (Q : A -> Prop) (l1 l2 l1' : list A) x y :
  Forall (fun a => ~ Q a) l1' -> Q x ->
  (l1 ++ x :: l2 = l1' ++ [y])%list ->
  l2 = [] /\ x = y.
Proof.
  intros HF HQ. revert l1. induction HF as [|a l1' Ha HF IH]; intros l1 Heq.
  - destruct l1 as [|b l1]; cbn in Heq.
    + injection Heq as -> ->. done.
    + injection Heq as _ Heq. by destruct l1.
  - destruct l1 as [|b l1]; cbn in Heq.
    + injection Heq as -> _. done.
    + injection Heq as _ Heq. by eapply IH.
Qed.

Lemma Forall_snoc_inv {A} (Q : A -> Prop) (l : list A) x :
  Forall Q l -> Q x -> Forall Q (l ++ [x]).
Proof. intros. apply Forall_app. split; [done|]. by constructor. Qed.

(** C6, in the form the code satisfies: when [FoundFileFn] returns an error other than
    [filepath.SkipDir] and [filepath.SkipAll], that call is the last thing
    the walk does, and [search] returns that very error. *)
Theorem C6_callback_failure_aborts root idx (cfg : Config) u tr0 rec e rest :
  let out := search P (stateOf root idx cfg u []) in
  trace (env (snd out)) = (tr0 ++ EvFound rec (Some e) :: rest)%list ->
  isSkipDir e = false -> isSkipAll e = false ->
  rest = [] /\ fst out = Done (Some e).
Proof.
  intros out Htr Hsd Hsa. subst out.
  set (J := fun (_ : gmap string string) (tr : list event) =>
              Forall (fun ev => ~ callbackFailed ev) tr).
  set (B := fun (r : outcome (option error)) (_ : gmap string string)
                (tr : list event) =>
              exists tr1 rec1 e1,
                tr = (tr1 ++ [EvFound rec1 (Some e1)])%list
                /\ Forall (fun ev => ~ callbackFailed ev) tr1
                /\ isSkipDir e1 = false /\ isSkipAll e1 = false
                /\ r = Done (Some e1)).
  destruct (search_inv root cfg J B)
    with (idx := idx) (u := u) (tr := @nil event)
    as (r & idx' & u' & tr' & Hs & Hpost).
  - intros p i tr HJ. apply Forall_snoc_inv; [done|]. by intros [].
  - intros p i tr HJ. apply Forall_snoc_inv; [done|]. by intros [].
  - intros p i e0 i0 u0 tr r0 idx' u1 evs HJ Hstep.
    assert (Hclean : forall evs', Forall (fun ev => ~ callbackFailed ev) evs' ->
              Forall (fun ev => ~ callbackFailed ev) (tr ++ EvWalkFn p i e0 :: evs')).
    { intros evs' H'. apply Forall_app. split; [done|].
      constructor; [by intros []|done]. }
    assert (Hrep : forall r1 u2 u3 evs' pre rc,
              reportStep cfg u2 rc r1 u3 evs' ->
              Forall (fun ev => ~ callbackFailed ev) pre ->
              Forall (fun ev => ~ callbackFailed ev) (pre ++ evs')
              \/ B r1 idx' (pre ++ evs')%list).
    { intros r1 u2 u3 evs' pre rc Hr Hpre. inversion Hr; subst.
      - left. by rewrite app_nil_r.
      - destruct res as [e1|].
        + destruct (isSkipDir e1) eqn:H1.
          { left. apply Forall_snoc_inv; [done|]. cbn. rewrite H1. by intros []. }
          destruct (isSkipAll e1) eqn:H2.
          { left. apply Forall_snoc_inv; [done|]. cbn. rewrite H2. by intros []. }
          right. by exists pre, rc, e1.
        + left. apply Forall_snoc_inv; [done|]. by intros []. }
    inversion Hstep; subst;
      try (left; apply Hclean; repeat constructor; by intros []).
    + change (tr ++ EvWalkFn p (Some info) None
                 :: EvInclude p true :: EvHashFile p h None :: evs0)%list
        with (tr ++ [EvWalkFn p (Some info) None; EvInclude p true;
                     EvHashFile p h None] ++ evs0)%list.
      rewrite app_assoc. eapply Hrep; [done|].
      apply Forall_app. split; [done|]. repeat constructor; by intros [].
    + change (tr ++ EvWalkFn p (Some info) None
                 :: EvInclude p true :: EvHashFile p h None :: evs0)%list
        with (tr ++ [EvWalkFn p (Some info) None; EvInclude p true;
                     EvHashFile p h None] ++ evs0)%list.
      rewrite app_assoc. eapply Hrep; [done|].
      apply Forall_app. split; [done|]. repeat constructor; by intros [].
    + change (tr ++ EvWalkFn p (Some info) None :: EvInclude p true :: evs0)%list
        with (tr ++ [EvWalkFn p (Some info) None; EvInclude p true] ++ evs0)%list.
      rewrite app_assoc. eapply Hrep; [done|].
      apply Forall_app. split; [done|]. repeat constructor; by intros [].
  - intros r0 i0 tr (tr1 & rec1 & e1 & _ & _ & H1 & H2 & ->). done.
  - constructor.
  - rewrite Hs in Htr |- *. cbn [fst snd env trace] in *.
    destruct Hpost as [HJ|(tr1 & rec1 & e1 & -> & Hcl & H1 & H2 & ->)].
    + rewrite Htr in HJ. apply Forall_app in HJ as [_ HJ].
      apply Forall_cons_iff in HJ as [HJ _]. destruct HJ. done.
    + destruct (last_event_unique callbackFailed tr0 rest tr1
                  (EvFound rec (Some e)) (EvFound rec1 (Some e1)))
        as [-> Heq]; try done.
      by injection Heq as <- <-.
Qed.

Lemma last_two_unique {A} (Q : A -> Prop) (l1 l2 l1' : list A) x y z :
  Forall (fun a => ~ Q a) l1' -> Q x -> ~ Q z ->
  (l1 ++ x :: l2 = l1' ++ [y; z])%list ->
  l2 = [z] /\ x = y.
Proof.
  intros HF HQ Hz. revert l1. induction HF as [|a l1' Ha HF IH]; intros l1 Heq.
  - destruct l1 as [|b l1]; cbn in Heq.
    + by injection Heq as -> ->.
    + injection Heq as _ Heq. destruct l1 as [|c l1]; cbn in Heq.
      * injection Heq as -> _. done.
      * injection Heq as _ Heq. by destruct l1.
  - destruct l1 as [|b l1]; cbn in Heq.
    + injection Heq as -> _. done.
    + injection Heq as _ Heq. by eapply IH.
Qed.

(** C7: with dedup tracking on, when the predicate has accepted a file
    that cannot be opened or read, the failed hashing is the last thing the
    walk does: [search] returns an error that wraps the cause
    ([errors.Unwrap] gives it back), whose message contains the path of the
    file; there is no record for the file and no later entry is visited. *)
Theorem C7_hash_failure_aborts root idx (cfg : Config) u tr0 p e rest :
  AllowDupes cfg = false ->
  os_Open P p = OpenFails e \/ os_Open P p = ReadFails e ->
  let out := search P (stateOf root idx cfg u []) in
  trace (env (snd out)) = (tr0 ++ EvInclude p true :: rest)%list ->
  rest = [EvHashFile p "" (Some e)]
  /\ fst out = Done (Some (hashFailure p e))
  /\ Unwrap (hashFailure p e) = Some e
  /\ (exists pre suf, Error (hashFailure p e) = pre ++ p ++ suf).
Proof.
  intros Hdup Hopen out Htr. subst out.
  set (J := fun (_ : gmap string string) (tr : list event) =>
              Forall (fun ev => ~ acceptedUnreadable P ev) tr).
  set (B := fun (r : outcome (option error)) (_ : gmap string string)
                (tr : list event) =>
              exists tr1 p1 e1,
                tr = (tr1 ++ [EvInclude p1 true; EvHashFile p1 "" (Some e1)])%list
                /\ Forall (fun ev => ~ acceptedUnreadable P ev) tr1
                /\ (os_Open P p1 = OpenFails e1 \/ os_Open P p1 = ReadFails e1)
                /\ r = Done (Some (hashFailure p1 e1))).
  assert (Hbad : acceptedUnreadable P (EvInclude p true)).
  { cbn. by destruct Hopen as [-> | ->]. }
  destruct (search_inv root cfg J B)
    with (idx := idx) (u := u) (tr := @nil event)
    as (r & idx' & u' & tr' & Hs & Hpost).
  - intros q i tr HJ. apply Forall_snoc_inv; [done|]. by intros [].
  - intros q i tr HJ. apply Forall_snoc_inv; [done|]. by intros [].
  - intros q i e0 i0 u0 tr r0 idx' u1 evs HJ Hstep.
    assert (Hread : forall h, hashFile P q (pickHasher P cfg) = (h, None) ->
                              ~ acceptedUnreadable P (EvInclude q true)).
    { intros h Hh. unfold hashFile in Hh. cbn.
      destruct (os_Open P q); [discriminate Hh|discriminate Hh|by intros []]. }
    inversion Hstep; subst;
      repeat match goal with
             | H : reportStep _ _ _ _ _ _ |- _ => inversion H; subst; clear H
             end; try congruence;
      try (left; apply Forall_app; split; [done|];
           repeat (apply List.Forall_cons;
                   [first [by eapply Hread | by intros []]|]);
           apply List.Forall_nil).
    right. exists (tr ++ [EvWalkFn q (Some info) None])%list, q, herr.
    match goal with H : hashFile _ _ _ = _ |- _ => unfold hashFile in H end.
    split; [|split; [|split]].
    + rewrite <- app_assoc. destruct (os_Open P q); by simplify_eq.
    + apply Forall_snoc_inv; [done|]. by intros [].
    + destruct (os_Open P q); simplify_eq; auto.
    + done.
  - intros r0 i0 tr (tr1 & p1 & e1 & _ & _ & _ & ->). done.
  - constructor.
  - rewrite Hs in Htr |- *. cbn [fst snd env trace] in *.
    destruct Hpost as [HJ|(tr1 & p1 & e1 & -> & Hcl & Hopen1 & ->)].
    + rewrite Htr in HJ. apply Forall_app in HJ as [_ HJ].
      apply Forall_cons_iff in HJ as [HJ _]. by destruct HJ.
    + destruct (last_two_unique (acceptedUnreadable P) tr0 rest tr1
                  (EvInclude p true) (EvInclude p1 true)
                  (EvHashFile p1 "" (Some e1)))
        as [-> Heq]; try done.
      { by intros []. }
      injection Heq as <-.
      assert (e1 = e) as ->.
      { destruct Hopen as [Ho|Ho], Hopen1 as [Ho1|Ho1]; congruence. }
      repeat split; try done.
      exists "failed to hash file '", ("' - " ++ Error e). reflexivity.
Qed.

(** ** Paths below the root *)

Lemma append_nil_l (s : string) : "" ++ s = s.
Proof. reflexivity. Qed.

Lemma append_cons (c : ascii) (a b : string) :
  String c a ++ b = String c (a ++ b).
Proof. reflexivity. Qed.

Lemma substring_all s : String.substring 0 (String.length s) s = s.
Proof. induction s as [|c s IH]; cbn; [done|]. by rewrite IH. Qed.

Lemma prefix_append pre s : String.prefix pre (pre ++ s) = true.
Proof.
  induction pre as [|c pre IH].
  - rewrite append_nil_l. by destruct s.
  - rewrite append_cons. cbn. by destruct (ascii_dec c c).
Qed.

Lemma strings_TrimPrefix_append pre s : strings_TrimPrefix (pre ++ s) pre = s.
Proof.
  unfold strings_TrimPrefix, strings_HasPrefix. rewrite prefix_append.
  induction pre as [|c pre IH].
  - rewrite append_nil_l. cbn. rewrite Nat.sub_0_r. apply substring_all.
  - rewrite append_cons. cbn. exact IH.
Qed.

Lemma append_assoc_s (a b c : string) : (a ++ b) ++ c = a ++ (b ++ c).
Proof.
  induction a as [|x a IH]; [done|]. rewrite !append_cons. by rewrite IH.
Qed.

Lemma append_empty_r (a b : string) : a ++ b = "" -> b = "".
Proof. destruct a; [done|]. rewrite append_cons. discriminate. Qed.

Lemma append_eq_self (a b : string) : a ++ b = a -> b = "".
Proof.
  induction a as [|x a IH]; [done|]. rewrite append_cons. intros [= H]. auto.
Qed.

Lemma append_empty_right (a : string) : a = a ++ "".
Proof.
  induction a as [|x a IH]; [done|]. rewrite append_cons. by rewrite <- IH.
Qed.

Lemma filepath_Join_extends dir name :
  validName name = true ->
  exists sfx, sfx <> "" /\ filepath_Join dir name = dir ++ sfx.
Proof.
  unfold validName, filepath_Join. intros Hn.
  assert (Hne : name <> "").
  { intros ->. done. }
  destruct (String.eqb dir "") eqn:Hd.
  - apply String.eqb_eq in Hd as ->. by exists name.
  - destruct (endsWithSeparator dir).
    + by exists name.
    + exists ("/" ++ name). split; [discriminate|done].
Qed.

Lemma filepath_Join_neq dir name :
  validName name = true -> filepath_Join dir name <> dir.
Proof.
  intros Hn. destruct (filepath_Join_extends dir name Hn) as (sfx & Hs & ->).
  intros H%append_eq_self. done.
Qed.

Lemma In_reports r tr :
  In r (reports tr) <-> exists res, In (EvFound r res) tr.
Proof.
  induction tr as [|ev tr IH].
  - split; [done|]. by intros [? []].
  - assert (Hskip : (forall r0 res0, ev <> EvFound r0 res0) ->
              reports (ev :: tr) = reports tr).
    { intros Hne. destruct ev; try done. by destruct (Hne r0 res). }
    destruct ev as [q|q|q|q i0 e0|q b0|q h0 e0|r1 res1];
      try (rewrite Hskip by done; rewrite IH; split;
           [intros [res0 H]; exists res0; by right
           |intros [res0 [[=]|H]]; by exists res0]).
    cbn [reports In]. rewrite IH. split.
    + intros [<-|[res0 H]]; [exists res1; by left|exists res0; by right].
    + intros [res0 [[= <- <-]|H]]; [by left|right; by exists res0].
Qed.

(** ** Records are consistent *)

(** C10: in every record handed to [FoundFileFn], [AlreadySeen] is true
    exactly when [PreviousFilePath] is not empty. *)
Theorem C10_already_seen_iff_previous_path (cfg : Config) u sfw w1 :
  newFileWalker P cfg (mkWorld u []) = (Done (inr sfw), w1) ->
  treeNamesOk (os_Lstat P (absTargetDirPath sfw)) = true ->
  forall r, In r (reports (trace (env (snd (search P (mkState sfw w1)))))) ->
            seenIffPrevious r.
Proof.
  intros Hnew Hnames.
  destruct (newFileWalker_ok _ _ _ _ Hnew) as (root & fi & fo & _ & _ & _ & -> & ->).
  cbn [absTargetDirPath] in Hnames. unfold logWorld; cbn [caller trace app].
  set (Q := fun ev => match ev with EvFound r _ => seenIffPrevious r | _ => True end).
  enough (HF : Forall Q (trace (env (snd (search P
                  (stateOf root (∅ : gmap string string) cfg u
                     [EvAbs (TargetDirPath cfg)])))))).
  { intros r [res Hin]%In_reports.
    exact (proj1 (List.Forall_forall Q _) HF _ Hin). }
  set (J := fun (idx : gmap string string) (tr : list event) =>
              (forall h v, idx !! h = Some v -> v <> "") /\ Forall Q tr).
  assert (Hrep : forall u1 rc r1 u2 evs, reportStep cfg u1 rc r1 u2 evs ->
                   seenIffPrevious rc -> Forall Q evs).
  { intros u1 rc r1 u2 evs Hr Hrc.
    inversion Hr; subst; [constructor|constructor; [exact Hrc|constructor]]. }
  assert (Hstep : forall p i e idx u0 tr r idx' u' evs,
            J idx tr ->
            fwfStep P root idx cfg u0 p i e r idx' u' evs ->
            (idx = idx' \/ exists sfx, sfx <> "" /\ p = root ++ sfx) ->
            J idx' (tr ++ EvWalkFn p i e :: evs)%list).
  { intros p i e idx u0 tr r idx' u' evs [Hidx HF] Hs Hp.
    assert (HF' : forall evs', Forall Q evs' ->
                    Forall Q (tr ++ EvWalkFn p i e :: evs')).
    { intros evs' H'. apply Forall_app. split; [done|]. by constructor. }
    inversion Hs; subst; try (split; [done|apply HF'; by repeat constructor]).
    - split.
      + destruct Hp as [Heq|(sfx & Hne & ->)].
        * intros h0 v. rewrite <- Heq. apply Hidx.
        * intros h0 v. rewrite strings_TrimPrefix_append.
          destruct (decide (h = h0)) as [->|Hneq].
          -- rewrite lookup_insert_eq. by intros [= <-].
          -- rewrite lookup_insert_ne by done. apply Hidx.
      + apply HF'. repeat constructor. eapply Hrep; [done|].
        unfold seenIffPrevious; cbn. split; done.
    - split; [done|]. apply HF'. repeat constructor. eapply Hrep; [done|].
      unfold seenIffPrevious; cbn. split; [|done].
      intros _. by eapply Hidx.
    - split; [done|]. apply HF'. repeat constructor. eapply Hrep; [done|].
      unfold seenIffPrevious; cbn. split; done. }
  assert (HJ0 : J ∅ [EvAbs (TargetDirPath cfg)]).
  { split; [intros h v; by rewrite lookup_empty|by repeat constructor]. }
  destruct (os_Lstat P root) as [lerr|[info rd names]] eqn:Hl;
    [|destruct (IsDir info) eqn:Hdir].
  3:{ (* the root is not a directory: it is the only entry visited *)
    rewrite search_unfold, Walk_unfold, Hl, walk_file by done.
    unfold logEvent, logWorld; cbn [self env caller trace].
    destruct (fileWalkFunc_step root (Some info) None root ∅ cfg u
                ([EvAbs (TargetDirPath cfg)] ++ [EvLstat root]))
      as (r & idx' & u' & evs & -> & Hs).
    assert (HF : Forall Q (([EvAbs (TargetDirPath cfg)] ++ [EvLstat root])
                             ++ EvWalkFn root (Some info) None :: evs)).
    { apply Forall_app. split; [by repeat constructor|]. constructor; [done|].
      inversion Hs; subst;
        repeat (apply List.Forall_cons; [exact Logic.I|]);
        try apply List.Forall_nil.
      - eapply Hrep; [done|]. split; done.
      - match goal with H : ∅ !! _ = Some _ |- _ => by rewrite lookup_empty in H end.
      - eapply Hrep; [done|]. split; done. }
    destruct r as [[e|]|msg]; cbn [fst snd env trace]; try done.
    by destruct (isSkipDir e || isSkipAll e). }
  all: destruct (search_rule root cfg J (fun _ _ _ => False) validName
                   (fun p => exists sfx, p = root ++ sfx)
                   (fun p => exists sfx, sfx <> "" /\ p = root ++ sfx))
         with (idx := (∅ : gmap string string)) (u := u)
              (tr := [EvAbs (TargetDirPath cfg)])
         as (r & idx' & u' & tr' & -> & [[_ HF]|[]]); try done.
  all: try (intros p n [sfx0 ->] Hn;
            destruct (filepath_Join_extends (root ++ sfx0) n Hn) as (sfx & Hne & ->);
            exists (sfx0 ++ sfx); split;
            [intros H%append_empty_r; done|apply append_assoc_s]).
  all: try (intros p (sfx & _ & ->); by exists sfx).
  all: try (intros p idx tr [H1 H2]; split; [done|];
            apply Forall_app; split; [done|by repeat constructor]).
  all: try (intros p i e idx u0 tr r idx' u' evs HR HJ Hs;
            left; eapply Hstep; try done;
            destruct HR as [HR|[_ HR]]; [by right|];
            left; inversion Hs; subst; try done;
            specialize (HR _ eq_refl);
            unfold regularFile in *;
            match goal with H : negb (IsDir _) && _ = true |- _ =>
              rewrite HR in H; done end).
  all: try (exists ""; apply append_empty_right).
  - intros e He. rewrite Hl in He. discriminate.
  - intros e He. rewrite Hl in He. injection He as <-.
    split; [exact Hnames|by right].
Qed.

(** ** Deduplication *)

Lemma reports_app tr1 tr2 : reports (tr1 ++ tr2) = (reports tr1 ++ reports tr2)%list.
Proof.
  induction tr1 as [|ev tr1 IH]; [done|].
  destruct ev; cbn; by rewrite ?IH.
Qed.

Lemma firstWith_app h l1 l2 :
  firstWith h (l1 ++ l2) =
  match firstWith h l1 with
  | Some x => Some x
  | None => firstWith h l2
  end.
Proof.
  unfold firstWith. induction l1 as [|a l1 IH]; cbn; [done|].
  by destruct (String.eqb (Hash a) h).
Qed.

Lemma firstWith_In r l : In r l -> firstWith (Hash r) l <> None.
Proof.
  unfold firstWith. intros Hin Hnone.
  pose proof (List.find_none _ _ Hnone r Hin) as H. cbn in H.
  by rewrite String.eqb_refl in H.
Qed.

Lemma countUnseen_app h l1 l2 :
  countUnseen h (l1 ++ l2) = (countUnseen h l1 + countUnseen h l2)%nat.
Proof. unfold countUnseen. by rewrite List.filter_app, List.length_app. Qed.

Lemma snoc_split {A} (l l1 l2 : list A) (r x : A) :
  (l ++ [r] = l1 ++ x :: l2)%list ->
  (l2 = [] /\ l1 = l /\ x = r)
  \/ exists l2', l2 = (l2' ++ [r])%list /\ l = (l1 ++ x :: l2')%list.
Proof.
  destruct l2 as [|y l2 _] using rev_ind; intros Heq.
  - left. apply app_inj_tail in Heq as [-> ->]. done.
  - right. exists l2. change (l1 ++ x :: l2 ++ [y])%list
      with (l1 ++ (x :: l2) ++ [y])%list in Heq.
    rewrite app_assoc in Heq. apply app_inj_tail in Heq as [-> ->]. done.
Qed.

(** The verdicts of a walk with dedup tracking on, in terms of what the
    walker computes: a record none of whose predecessors has its digest is
    marked unseen, and the index then maps the digest to what the walker
    stores for that file; a record with such a predecessor is marked seen
    and carries what was stored for the earliest one, which the index still
    holds. *)
Lemma dedup_verdicts (cfg : Config) u sfw w1 :
  AllowDupes cfg = false ->
  newFileWalker P cfg (mkWorld u []) = (Done (inr sfw), w1) ->
  let out := search P (mkState sfw w1) in
  let rs := reports (trace (env (snd out))) in
  let idx := fileHashesToPrevious (self (snd out)) in
  let root := absTargetDirPath sfw in
  (forall l1 r l2,
      rs = (l1 ++ r :: l2)%list ->
      match firstWith (Hash r) l1 with
      | None =>
          AlreadySeen r = false
          /\ idx !! Hash r = Some (storedPath root (FilePath r))
      | Some r0 =>
          AlreadySeen r = true
          /\ PreviousFilePath r = storedPath root (FilePath r0)
          /\ idx !! Hash r = Some (PreviousFilePath r)
      end)
  /\ (forall r, In r rs -> countUnseen (Hash r) rs = 1%nat).
Proof.
  intros Hdup Hnew.
  destruct (newFileWalker_ok _ _ _ _ Hnew) as (root & fi & fo & _ & _ & Hfo & -> & ->).
  unfold logWorld; cbn [caller trace app absTargetDirPath].
  set (J := fun (idx : gmap string string) (tr : list event) =>
              (forall h, idx !! h
                         = (fun r0 => storedPath root (FilePath r0))
                             <$> firstWith h (reports tr))
              /\ (forall l1 r l2, reports tr = (l1 ++ r :: l2)%list ->
                                  dedupVerdict root l1 r)
              /\ (forall h, countUnseen h (reports tr)
                            = match firstWith h (reports tr) with
                              | Some _ => 1%nat
                              | None => 0%nat
                              end)).
  assert (Hsame : forall idx tr evs, reports evs = [] -> J idx tr -> J idx (tr ++ evs)%list).
  { intros idx tr evs He HJ. unfold J. rewrite reports_app, He, app_nil_r. exact HJ. }
  destruct (search_inv root cfg J (fun _ _ _ => False))
    with (idx := (∅ : gmap string string)) (u := u) (tr := [EvAbs (TargetDirPath cfg)])
    as (r & idx' & u' & tr' & -> & [HJ|[]]); try done.
  - intros p idx tr HJ. by apply Hsame.
  - intros p idx tr HJ. by apply Hsame.
  - intros p i e idx u0 tr r0 idx' u1 evs HJ Hstep. left.
    inversion Hstep; subst; try (by apply Hsame); try congruence.
    + (* first seen *)
      match goal with H : reportStep _ _ _ _ _ _ |- _ => inversion H; subst end;
        [congruence|].
      destruct HJ as (Hidx & Hver & Hcnt).
      set (rc := newReport P root p info false h "") in *.
      assert (Hrep : reports (tr ++ EvWalkFn p (Some info) None
                                :: EvInclude p true :: EvHashFile p h None
                                :: [EvFound rc res])
                     = (reports tr ++ [rc])%list).
      { by rewrite reports_app. }
      assert (Hnone : firstWith h (reports tr) = None).
      { specialize (Hidx h).
        match goal with H : idx !! h = None |- _ => rewrite H in Hidx end.
        by destruct (firstWith h (reports tr)). }
      unfold J. rewrite Hrep. split; [|split].
      * intros h'. rewrite firstWith_app.
        destruct (decide (h = h')) as [<-|Hne].
        -- rewrite lookup_insert_eq, Hnone. unfold firstWith; cbn.
           by rewrite String.eqb_refl.
        -- rewrite lookup_insert_ne by done. rewrite Hidx.
           destruct (firstWith h' (reports tr)); [done|].
           unfold firstWith; cbn.
           destruct (String.eqb h h') eqn:Heq; [|done].
           by apply String.eqb_eq in Heq.
      * intros l1 r1 l2 [(-> & -> & ->)|(l2' & -> & Hl)]%snoc_split.
        -- unfold dedupVerdict. cbn [Hash rc newReport]. by rewrite Hnone.
        -- by eapply Hver.
      * intros h'. rewrite countUnseen_app, firstWith_app, Hcnt.
        assert (Hc1 : countUnseen h' [rc]
                      = if String.eqb h h' then 1%nat else 0%nat).
        { unfold countUnseen; cbn. by destruct (String.eqb h h'). }
        assert (Hf1 : firstWith h' [rc]
                      = if String.eqb h h' then Some rc else None).
        { unfold firstWith; cbn. by destruct (String.eqb h h'). }
        rewrite Hc1, Hf1.
        destruct (firstWith h' (reports tr)) as [x|] eqn:Hx.
        -- destruct (String.eqb h h') eqn:Heq; [|done].
           apply String.eqb_eq in Heq as <-. congruence.
        -- by destruct (String.eqb h h').
    + (* seen before *)
      match goal with H : reportStep _ _ _ _ _ _ |- _ => inversion H; subst end;
        [congruence|].
      destruct HJ as (Hidx & Hver & Hcnt).
      set (rc := newReport P root p info true h prev) in *.
      assert (Hrep : reports (tr ++ EvWalkFn p (Some info) None
                                :: EvInclude p true :: EvHashFile p h None
                                :: [EvFound rc res])
                     = (reports tr ++ [rc])%list).
      { by rewrite reports_app. }
      assert (Hsome : exists r0, firstWith h (reports tr) = Some r0
                                 /\ prev = storedPath root (FilePath r0)).
      { specialize (Hidx h).
        match goal with H : idx' !! h = Some _ |- _ => rewrite H in Hidx end.
        destruct (firstWith h (reports tr)) as [r0|]; [|done].
        exists r0. split; [done|]. by injection Hidx. }
      destruct Hsome as (r0 & Hr0 & ->).
      unfold J. rewrite Hrep. split; [|split].
      * intros h'. rewrite firstWith_app, Hidx.
        destruct (firstWith h' (reports tr)) eqn:Hx; [done|].
        unfold firstWith; cbn.
        destruct (String.eqb h h') eqn:Heq; [|done].
        apply String.eqb_eq in Heq as <-. congruence.
      * intros l1 r1 l2 [(-> & -> & ->)|(l2' & -> & Hl)]%snoc_split.
        -- unfold dedupVerdict. cbn [Hash rc newReport]. by rewrite Hr0.
        -- by eapply Hver.
      * intros h'. rewrite countUnseen_app, firstWith_app, Hcnt.
        assert (Hc1 : countUnseen h' [rc] = 0%nat).
        { unfold countUnseen; cbn. by rewrite andb_false_r. }
        assert (Hf1 : firstWith h' [rc]
                      = if String.eqb h h' then Some rc else None).
        { unfold firstWith; cbn. by destruct (String.eqb h h'). }
        rewrite Hc1, Hf1.
        destruct (firstWith h' (reports tr)) as [x|] eqn:Hx; [done|].
        destruct (String.eqb h h') eqn:Heq; [|done].
        apply String.eqb_eq in Heq as <-. congruence.
  - (* the log before the walk holds no record *)
    split; [|split]; cbn.
    + intros h. by rewrite lookup_empty.
    + intros l1 r1 l2 Heq. by destruct l1.
    + done.
  - cbn [fst snd self env trace fileHashesToPrevious].
    destruct HJ as (Hidx & Hver & Hcnt). split.
    + intros l1 r1 l2 Heq.
      pose proof (Hver l1 r1 l2 Heq) as Hv. unfold dedupVerdict in Hv.
      pose proof (Hidx (Hash r1)) as Hi. rewrite Heq, firstWith_app in Hi.
      destruct (firstWith (Hash r1) l1) as [r0|] eqn:Hf.
      * destruct Hv as [Hv1 Hv2]. rewrite Hv2. done.
      * destruct Hv as [Hv1 Hv2]. split; [done|].
        unfold firstWith in Hi; cbn in Hi. by rewrite String.eqb_refl in Hi.
    + intros r1 Hin. rewrite Hcnt.
      pose proof (firstWith_In r1 _ Hin).
      by destruct (firstWith (Hash r1) (reports tr')).
Qed.

(** ** Without recursion *)

Section NotRecursive.

Local Open Scope list_scope.

Variable root : string.
Variable cfg : Config.
Hypothesis not_recursive : Recursive cfg = false.

Lemma fwfStep_paths idx u p i e r idx' u' evs :
  fwfStep P root idx cfg u p i e r idx' u' evs ->
  Forall (fun ev => eventPath ev = Some p) evs.
Proof.
  intros Hs. inversion Hs; subst;
    repeat match goal with
           | H : reportStep _ _ _ _ _ _ |- _ => inversion H; subst; clear H
           end;
    repeat (apply List.Forall_cons; [reflexivity|]); apply List.Forall_nil.
Qed.

Lemma pruned_subdirectory p info :
  IsDir info = true -> p <> root -> pruned cfg root p info = true.
Proof.
  intros Hd Hp. unfold pruned. rewrite not_recursive, Hd. cbn.
  destruct (String.eqb p root) eqn:Heq; [|done].
  by apply String.eqb_eq in Heq.
Qed.

Lemma fileWalkFunc_prunes idx u tr p info :
  IsDir info = true -> p <> root ->
  fileWalkFunc P p (Some info) None (stateOf root idx cfg u tr)
  = (Done (Some SkipDir),
     stateOf root idx cfg u (tr ++ [EvWalkFn p (Some info) None])).
Proof.
  intros Hd Hp.
  destruct (fileWalkFunc_step p (Some info) None root idx cfg u tr)
    as (r & idx' & u' & evs & -> & Hs).
  pose proof (pruned_subdirectory p info Hd Hp) as Hpr.
  inversion Hs; subst;
    repeat match goal with
           | H : Some _ = Some _ |- _ => injection H as <-
           end; try congruence;
    unfold regularFile in *; rewrite Hd in *; done.
Qed.

(** Walking an entry directly in the root logs about that entry only. *)
Lemma walk_child e p idx u tr :
  p <> root ->
  exists r idx' u' evs,
    walk (fileWalkFunc P) p e (stateOf root idx cfg u tr)
    = (r, stateOf root idx' cfg u' (tr ++ evs))
    /\ Forall (fun ev => eventPath ev = Some p) evs.
Proof.
  intros Hp. destruct e as [info rd names].
  destruct (IsDir info) eqn:Hd.
  - rewrite walk_dir by done. unfold logEvent, logWorld; cbn [self env caller trace].
    destruct rd as [err|].
    + destruct (fileWalkFunc_step p (Some info) (Some err) root idx cfg u
                  (tr ++ [EvReadDir p]))
        as (r & idx' & u' & evs & -> & Hs).
      pose proof (fwfStep_paths _ _ _ _ _ _ _ _ _ Hs) as Hev.
      destruct r as [err1|msg].
      * cbn [notNil orb]. eexists _, _, _, _. split.
        { rewrite <- app_assoc. reflexivity. }
        repeat (apply List.Forall_cons; [reflexivity|]). done.
      * eexists _, _, _, _. split.
        { rewrite <- app_assoc. reflexivity. }
        repeat (apply List.Forall_cons; [reflexivity|]). done.
    + rewrite fileWalkFunc_prunes by done. cbn [notNil orb].
      eexists _, _, _, _. split.
      { rewrite <- app_assoc. reflexivity. }
      repeat (apply List.Forall_cons; [reflexivity|]). apply List.Forall_nil.
  - rewrite walk_file by done.
    destruct (fileWalkFunc_step p (Some info) None root idx cfg u tr)
      as (r & idx' & u' & evs & -> & Hs).
    pose proof (fwfStep_paths _ _ _ _ _ _ _ _ _ Hs) as Hev.
    eexists _, _, _, _. split; [reflexivity|].
    apply List.Forall_cons; [reflexivity|done].
Qed.

Lemma walkNames_top names :
  listingNamesOk validName names = true ->
  forall idx u tr,
  exists r idx' u' evs,
    walkNames (fileWalkFunc P) root names (stateOf root idx cfg u tr)
    = (r, stateOf root idx' cfg u' (tr ++ evs))
    /\ Forall (fun ev => exists n, In n (listingNames names)
                                   /\ eventPath ev = Some (filepath_Join root n)) evs.
Proof.
  induction names as [|name lerr rest IH|name e rest IH]; intros Hok idx u tr.
  - eexists _, _, _, (@nil event). split; [by rewrite app_nil_r|]. constructor.
  - cbn [listingNamesOk] in Hok. apply andb_prop in Hok as [Hn Hrest].
    rewrite walkNames_StatFails.
    unfold logEvent, logWorld; cbn [self env caller trace].
    set (p := filepath_Join root name).
    destruct (fileWalkFunc_step p None (Some lerr) root idx cfg u (tr ++ [EvLstat p]))
      as (r & idx' & u' & evs & -> & Hs).
    pose proof (fwfStep_paths _ _ _ _ _ _ _ _ _ Hs) as Hev.
    assert (Hhere : Forall (fun ev => exists n, In n (listingNames (StatFails name lerr rest))
                              /\ eventPath ev = Some (filepath_Join root n))
                      (EvLstat p :: EvWalkFn p None (Some lerr) :: evs)).
    { repeat (apply List.Forall_cons; [exists name; split; [by left|done]|]).
      eapply List.Forall_impl; [|exact Hev]. intros ev Hp. exists name.
      split; [by left|done]. }
    assert (Hgo : exists r1 idx1 u1 evs1,
              walkNames (fileWalkFunc P) root rest
                (stateOf root idx' cfg u' ((tr ++ [EvLstat p])
                                            ++ EvWalkFn p None (Some lerr) :: evs))
              = (r1, stateOf root idx1 cfg u1 (tr ++ evs1))
              /\ Forall (fun ev => exists n,
                           In n (listingNames (StatFails name lerr rest))
                           /\ eventPath ev = Some (filepath_Join root n)) evs1).
    { destruct (IH Hrest idx' u' ((tr ++ [EvLstat p])
                                    ++ EvWalkFn p None (Some lerr) :: evs))
        as (r1 & idx1 & u1 & evs1 & -> & Hev1).
      eexists _, _, _, _. split.
      { rewrite <- !app_assoc. cbn [app]. reflexivity. }
      apply (proj2 (List.Forall_app _ (EvLstat p :: EvWalkFn p None (Some lerr) :: evs) evs1)).
      split; [exact Hhere|].
      eapply List.Forall_impl; [|exact Hev1]. intros ev (n & Hin & Hp).
      exists n. split; [by right|done]. }
    assert (Hstop : forall r1 : outcome (option error), exists r2 idx1 u1 evs1,
              (r1, stateOf root idx' cfg u' ((tr ++ [EvLstat p])
                                            ++ EvWalkFn p None (Some lerr) :: evs))
              = (r2, stateOf root idx1 cfg u1 (tr ++ evs1))
              /\ Forall (fun ev => exists n,
                           In n (listingNames (StatFails name lerr rest))
                           /\ eventPath ev = Some (filepath_Join root n)) evs1).
    { intros r1. eexists _, _, _, _. split; [|exact Hhere].
      rewrite <- !app_assoc. cbn [app]. reflexivity. }
    destruct r as [[e'|]|msg]; [|exact Hgo|apply Hstop].
    destruct (isSkipDir e'); [exact Hgo|apply Hstop].
  - cbn [listingNamesOk] in Hok. apply andb_prop in Hok as [Hok Hrest].
    apply andb_prop in Hok as [Hn He].
    rewrite walkNames_Child.
    unfold logEvent, logWorld; cbn [self env caller trace].
    set (p := filepath_Join root name).
    destruct (walk_child e p idx u (tr ++ [EvLstat p]))
      as (r & idx' & u' & evs & -> & Hev).
    { by apply filepath_Join_neq. }
    assert (Hhere : Forall (fun ev => exists n, In n (listingNames (Child name e rest))
                              /\ eventPath ev = Some (filepath_Join root n))
                      (EvLstat p :: evs)).
    { apply List.Forall_cons; [exists name; split; [by left|done]|].
      eapply List.Forall_impl; [|exact Hev]. intros ev Hp. exists name.
      split; [by left|done]. }
    assert (Hgo : exists r1 idx1 u1 evs1,
              walkNames (fileWalkFunc P) root rest
                (stateOf root idx' cfg u' ((tr ++ [EvLstat p]) ++ evs))
              = (r1, stateOf root idx1 cfg u1 (tr ++ evs1))
              /\ Forall (fun ev => exists n,
                           In n (listingNames (Child name e rest))
                           /\ eventPath ev = Some (filepath_Join root n)) evs1).
    { destruct (IH Hrest idx' u' ((tr ++ [EvLstat p]) ++ evs))
        as (r1 & idx1 & u1 & evs1 & -> & Hev1).
      eexists _, _, _, _. split.
      { rewrite <- !app_assoc. cbn [app]. reflexivity. }
      apply (proj2 (List.Forall_app _ (EvLstat p :: evs) evs1)).
      split; [exact Hhere|].
      eapply List.Forall_impl; [|exact Hev1]. intros ev (n & Hin & Hp).
      exists n. split; [by right|done]. }
    assert (Hstop : forall r1 : outcome (option error), exists r2 idx1 u1 evs1,
              (r1, stateOf root idx' cfg u' ((tr ++ [EvLstat p]) ++ evs))
              = (r2, stateOf root idx1 cfg u1 (tr ++ evs1))
              /\ Forall (fun ev => exists n,
                           In n (listingNames (Child name e rest))
                           /\ eventPath ev = Some (filepath_Join root n)) evs1).
    { intros r1. eexists _, _, _, _. split; [|exact Hhere].
      rewrite <- !app_assoc. cbn [app]. reflexivity. }
    destruct r as [[e'|]|msg]; [|exact Hgo|apply Hstop].
    destruct (negb (IsDir (entryInfo e)) || negb (isSkipDir e'));
      [apply Hstop|exact Hgo].
Qed.

(** After a pruned directory the listing of the root goes on. *)
Lemma walkNames_after_pruned name info names rest idx u tr :
  IsDir info = true -> validName name = true ->
  walkNames (fileWalkFunc P) root (Child name (Entry info None names) rest)
    (stateOf root idx cfg u tr)
  = walkNames (fileWalkFunc P) root rest
      (stateOf root idx cfg u
         (tr ++ [EvLstat (filepath_Join root name);
                 EvReadDir (filepath_Join root name);
                 EvWalkFn (filepath_Join root name) (Some info) None])).
Proof.
  intros Hd Hn. rewrite walkNames_Child, walk_dir by done.
  unfold logEvent, logWorld; cbn [self env caller trace].
  rewrite fileWalkFunc_prunes by (try done; by apply filepath_Join_neq).
  cbn [notNil orb entryInfo isSkipDir negb]. rewrite Hd. cbn [negb orb].
  by rewrite <- !app_assoc.
Qed.

Lemma search_top idx u tr :
  treeNamesOk (os_Lstat P root) = true ->
  exists r idx' u' evs,
    search P (stateOf root idx cfg u tr) = (r, stateOf root idx' cfg u' (tr ++ evs))
    /\ Forall (atTopLevel root (os_Lstat P root)) evs.
Proof.
  intros Hok. rewrite search_unfold, Walk_unfold.
  unfold logEvent, logWorld; cbn [self env caller trace].
  assert (Hroot : forall st ev, eventPath ev = Some root -> atTopLevel root st ev).
  { intros st ev Hp. unfold atTopLevel. rewrite Hp. by left. }
  enough (Hw : exists r idx' u' evs,
            (match os_Lstat P root with
             | inl lerr => fileWalkFunc P root None (Some lerr)
             | inr e => walk (fileWalkFunc P) root e
             end) (stateOf root idx cfg u (tr ++ [EvLstat root]))
            = (r, stateOf root idx' cfg u' (tr ++ evs))
            /\ Forall (atTopLevel root (os_Lstat P root)) evs).
  { destruct Hw as (r & idx' & u' & evs & -> & Hev).
    destruct r as [[e|]|msg]; try (by eexists _, _, _, _).
    destruct (isSkipDir e || isSkipAll e); by eexists _, _, _, _. }
  destruct (os_Lstat P root) as [lerr|[info rd names]] eqn:Hl.
  - destruct (fileWalkFunc_step root None (Some lerr) root idx cfg u (tr ++ [EvLstat root]))
      as (r & idx' & u' & evs & -> & Hs).
    pose proof (fwfStep_paths _ _ _ _ _ _ _ _ _ Hs) as Hev.
    eexists _, _, _, _. split; [rewrite <- app_assoc; reflexivity|].
    repeat (apply List.Forall_cons; [by apply Hroot|]).
    eapply List.Forall_impl; [|exact Hev]. intros ev. apply Hroot.
  - cbn [treeNamesOk entryNamesOk] in Hok.
    destruct (IsDir info) eqn:Hd.
    + rewrite walk_dir by done.
      unfold logEvent, logWorld; cbn [self env caller trace].
      destruct (fileWalkFunc_step root (Some info) rd root idx cfg u
                  ((tr ++ [EvLstat root]) ++ [EvReadDir root]))
        as (r & idx' & u' & evs & -> & Hs).
      pose proof (fwfStep_paths _ _ _ _ _ _ _ _ _ Hs) as Hev.
      assert (Hhere : Forall (atTopLevel root (inr (Entry info rd names)))
                        (EvLstat root :: EvReadDir root
                           :: EvWalkFn root (Some info) rd :: evs)).
      { repeat (apply List.Forall_cons; [by apply Hroot|]).
        eapply List.Forall_impl; [|exact Hev]. intros ev. apply Hroot. }
      assert (Hstop : forall r1 : outcome (option error), exists r2 idx1 u1 evs1,
                (r1, stateOf root idx' cfg u'
                       (((tr ++ [EvLstat root]) ++ [EvReadDir root])
                          ++ EvWalkFn root (Some info) rd :: evs))
                = (r2, stateOf root idx1 cfg u1 (tr ++ evs1))
                /\ Forall (atTopLevel root (inr (Entry info rd names))) evs1).
      { intros r1. eexists _, _, _, _. split; [|exact Hhere].
        rewrite <- !app_assoc. cbn [app]. reflexivity. }
      destruct r as [err1|msg]; [|apply Hstop].
      destruct (notNil rd || notNil err1); [apply Hstop|].
      destruct (walkNames_top names Hok idx' u'
                  (((tr ++ [EvLstat root]) ++ [EvReadDir root])
                     ++ EvWalkFn root (Some info) rd :: evs))
        as (r1 & idx1 & u1 & evs1 & -> & Hev1).
      eexists _, _, _, _. split.
      { rewrite <- !app_assoc. cbn [app]. reflexivity. }
      apply (proj2 (List.Forall_app _
               (EvLstat root :: EvReadDir root
                  :: EvWalkFn root (Some info) rd :: evs) evs1)).
      split; [exact Hhere|].
      eapply List.Forall_impl; [|exact Hev1]. intros ev (n & Hin & Hp).
      unfold atTopLevel. rewrite Hp. right. by apply List.in_map.
    + rewrite walk_file by done.
      destruct (fileWalkFunc_step root (Some info) None root idx cfg u
                  (tr ++ [EvLstat root]))
        as (r & idx' & u' & evs & -> & Hs).
      pose proof (fwfStep_paths _ _ _ _ _ _ _ _ _ Hs) as Hev.
      eexists _, _, _, _. split; [rewrite <- app_assoc; reflexivity|].
      repeat (apply List.Forall_cons; [by apply Hroot|]).
      eapply List.Forall_impl; [|exact Hev]. intros ev. apply Hroot.
Qed.

End NotRecursive.

(** C5: with [Recursive] unset, [fileWalkFunc] answers [filepath.SkipDir]
    for every directory other than the root that the traversal hands over
    without an error, and the listing of the root then goes on with the next
    name.  A directory handed over with an error (it could not be listed) is
    not pruned: [fileWalkFunc] returns that error.  Either way, everything
    the walk does (each [Lstat], each listing, each call of the predicate,
    each hashing, each record handed to [FoundFileFn]) is about the root or
    an entry directly in it: nothing below a subdirectory is looked at. *)
Theorem C5_no_descent_without_recursion (cfg : Config) u sfw w1 :
  Recursive cfg = false ->
  newFileWalker P cfg (mkWorld u []) = (Done (inr sfw), w1) ->
  treeNamesOk (os_Lstat P (absTargetDirPath sfw)) = true ->
  let root := absTargetDirPath sfw in
  (forall idx u0 tr p info,
      IsDir info = true -> p <> root ->
      fileWalkFunc P p (Some info) None (stateOf root idx cfg u0 tr)
      = (Done (Some SkipDir),
         stateOf root idx cfg u0 (tr ++ [EvWalkFn p (Some info) None])))
  /\ (forall idx u0 tr name info names rest,
      IsDir info = true -> validName name = true ->
      walkNames (fileWalkFunc P) root (Child name (Entry info None names) rest)
        (stateOf root idx cfg u0 tr)
      = walkNames (fileWalkFunc P) root rest
          (stateOf root idx cfg u0
             (tr ++ [EvLstat (filepath_Join root name);
                     EvReadDir (filepath_Join root name);
                     EvWalkFn (filepath_Join root name) (Some info) None])))
  /\ (forall idx u0 tr p info err,
      fileWalkFunc P p (Some info) (Some err) (stateOf root idx cfg u0 tr)
      = (Done (Some err),
         stateOf root idx cfg u0 (tr ++ [EvWalkFn p (Some info) (Some err)])))
  /\ Forall (atTopLevel root (os_Lstat P root))
       (trace (env (snd (search P (mkState sfw w1))))).
Proof.
  intros Hrec Hnew Hok.
  destruct (newFileWalker_ok _ _ _ _ Hnew) as (root & fi & fo & _ & _ & _ & -> & ->).
  cbn [absTargetDirPath] in *. unfold logWorld; cbn [caller trace app].
  split; [|split; [|split]].
  - intros. by apply fileWalkFunc_prunes.
  - intros. by apply walkNames_after_pruned.
  - intros idx u0 tr p info err.
    destruct (fileWalkFunc_step p (Some info) (Some err) root idx cfg u0 tr)
      as (r & idx' & u' & evs & -> & Hs).
    inversion Hs; subst; try discriminate.
    match goal with H : Some _ = Some _ |- _ => by injection H as <- end.
  - destruct (search_top root cfg Hrec (∅ : gmap string string) u
                [EvAbs (TargetDirPath cfg)] Hok)
      as (r & idx' & u' & evs & -> & Hev).
    cbn [snd env trace]. apply Forall_app. split; [|exact Hev].
    by repeat constructor.
Qed.

End Properties.

(** * Further properties *)

Section Further.

Context {U : Type}.
Variable P : platform.

Abbreviation Config := (@FindUniqueFilesConfig U).
Abbreviation stateOf root idx cfg u tr :=
  (mkState (mkWalker root idx cfg) (mkWorld u tr)).

(** ** Digest strings *)

Lemma byteOfHex_hexDigit (v : byte) :
  byteOfHex (hexDigit (N.shiftr (Byte.to_N v) 4)) (hexDigit (N.land (Byte.to_N v) 15))
  = Some v.
Proof. destruct v; reflexivity. Qed.

Lemma unhex_EncodeToString (src : list byte) :
  unhex (hex_EncodeToString src) = Some src.
Proof.
  induction src as [|v src IH]; [done|].
  cbn [hex_EncodeToString unhex]. by rewrite byteOfHex_hexDigit, IH.
Qed.

Lemma hex_EncodeToString_length (src : list byte) :
  String.length (hex_EncodeToString src) = (2 * List.length src)%nat.
Proof.
  induction src as [|v src IH]; [done|].
  cbn [hex_EncodeToString String.length List.length]. rewrite IH. lia.
Qed.

(** X1: for two files that can be read, [hashFile] returns the same
    string exactly when the hasher gives the same digest for their bytes,
    and no error. *)
Theorem X1_hashFile_same_string_iff_same_digest (hasher : hash_Hash) p1 p2 d1 d2 :
  os_Open P p1 = Contents d1 ->
  os_Open P p2 = Contents d2 ->
  snd (hashFile P p1 hasher) = None
  /\ (fst (hashFile P p1 hasher) = fst (hashFile P p2 hasher)
      <-> hasher d1 = hasher d2).
Proof.
  intros H1 H2. unfold hashFile. rewrite H1, H2. cbn. split; [done|]. split.
  - intros Heq. apply (f_equal unhex) in Heq.
    rewrite !unhex_EncodeToString in Heq. by injection Heq.
  - by intros ->.
Qed.

(** X2: the string [hashFile] returns for a readable file has two
    characters for each byte of the digest; when the file cannot be opened
    or read, the string is empty and the error is the one the file system
    gave. *)
Theorem X2_hashFile_result_shape (hasher : hash_Hash) p :
  match os_Open P p with
  | Contents data =>
      String.length (fst (hashFile P p hasher)) = (2 * List.length (hasher data))%nat
      /\ snd (hashFile P p hasher) = None
  | OpenFails err | ReadFails err =>
      hashFile P p hasher = ("", Some err)
  end.
Proof.
  unfold hashFile. destruct (os_Open P p); cbn; try done.
  split; [apply hex_EncodeToString_length|done].
Qed.

(** ** Construction *)

(** X3: when both functions are set and [filepath.Abs] fails,
    [FindUniqueFiles] returns the error of [filepath.Abs] as it is, and the
    only thing done was that call: nothing was walked. *)
Theorem X3_path_resolution_failure (cfg : Config) (w : world) fi fo err :
  IncludeFileFn cfg = Some fi -> FoundFileFn cfg = Some fo ->
  filepath_Abs P (TargetDirPath cfg) = inl err ->
  FindUniqueFiles P cfg w = (Done (Some err), logWorld (EvAbs (TargetDirPath cfg)) w).
Proof.
  intros Hi Hf Ha. unfold FindUniqueFiles, newFileWalker, Validate, bind, ret.
  by rewrite Hi, Hf, Ha.
Qed.

(** ** What every entry of the log satisfies *)

Lemma search_Forall root (cfg : Config) (Q : event -> Prop) :
  (forall p, Q (EvLstat p)) ->
  (forall p, Q (EvReadDir p)) ->
  (forall p i e idx u r idx' u' evs,
      fwfStep P root idx cfg u p i e r idx' u' evs ->
      Forall Q (EvWalkFn p i e :: evs)) ->
  forall idx u tr,
    Forall Q tr ->
    Forall Q (trace (env (snd (search P (stateOf root idx cfg u tr))))).
Proof.
  intros Hl Hr Hs idx u tr HQ.
  destruct (search_inv P root cfg (fun _ tr => Forall Q tr) (fun _ _ _ => False))
    with (idx := idx) (u := u) (tr := tr)
    as (r & idx' & u' & tr' & -> & [HJ|[]]); try done.
  - intros p i t Ht. apply Forall_app. split; [done|]. by constructor.
  - intros p i t Ht. apply Forall_app. split; [done|]. by constructor.
  - intros p i e i0 u0 t r0 idx' u1 evs Ht Hstep. left.
    apply Forall_app. split; [done|]. by eapply Hs.
Qed.

Lemma Forall_reports (Q : StatefulFileInfo -> Prop) tr :
  Forall (fun ev => match ev with EvFound r _ => Q r | _ => True end) tr ->
  Forall Q (reports tr).
Proof.
  induction 1 as [|ev tr Hev _ IH]; [constructor|].
  destruct ev; cbn [reports]; try done. by constructor.
Qed.

(** X4: every record handed to [FoundFileFn] names the search root in
    [AbsSearchDirPath], has [ParentDirPath] equal to [filepath.Dir] of its
    [FilePath], and carries the metadata of a regular file that is no
    directory. *)
Theorem X4_records_describe_regular_files root idx (cfg : Config) u :
  Forall (reportDescribes P root)
    (reports (trace (env (snd (search P (stateOf root idx cfg u [])))))).
Proof.
  apply Forall_reports, search_Forall;
    [intros; exact Logic.I|intros; exact Logic.I| |apply List.Forall_nil].
  intros p i e i0 u0 r idx' u' evs Hs.
  assert (Hok : forall info seen h prev,
            regularFile info = true ->
            reportDescribes P root (newReport P root p info seen h prev)).
  { intros info seen h prev Hreg. unfold regularFile in Hreg.
    apply andb_prop in Hreg as [Hd Hr]. unfold reportDescribes; cbn.
    repeat split; try done. by destruct (IsDir info). }
  inversion Hs; subst;
    repeat match goal with
           | H : reportStep _ _ _ _ _ _ |- _ => inversion H; subst; clear H
           end;
    repeat (apply List.Forall_cons; [first [exact Logic.I|by apply Hok]|]);
    apply List.Forall_nil.
Qed.

(** X5: the [Hash] of a record is empty when duplicates are allowed;
    otherwise it is the hexadecimal form of the digest the chosen hasher
    ([HasherFn], or SHA-256 when that is nil) gives for the bytes of the
    file at [FilePath]. *)
Theorem X5_record_hash_is_digest_of_file root idx (cfg : Config) u :
  Forall (reportHashed P cfg)
    (reports (trace (env (snd (search P (stateOf root idx cfg u [])))))).
Proof.
  apply Forall_reports, search_Forall;
    [intros; exact Logic.I|intros; exact Logic.I| |apply List.Forall_nil].
  intros p i e i0 u0 r idx' u' evs Hs.
  assert (Hhash : forall h, hashFile P p (pickHasher P cfg) = (h, None) ->
            exists data, os_Open P p = Contents data
                         /\ h = hex_EncodeToString (pickHasher P cfg data)).
  { intros h Hh. unfold hashFile in Hh. destruct (os_Open P p) as [?|?|data];
      try discriminate. exists data. split; [done|]. by injection Hh. }
  inversion Hs; subst;
    repeat match goal with
           | H : reportStep _ _ _ _ _ _ |- _ => inversion H; subst; clear H
           end;
    repeat (apply List.Forall_cons; [first [exact Logic.I|idtac]|]);
    try apply List.Forall_nil;
    unfold reportHashed; cbn [Hash FilePath newReport];
    match goal with H : AllowDupes cfg = _ |- _ => rewrite H end;
    try done; by apply Hhash.
Qed.

(** ** Errors from the traversal *)

(** X6: when the traversal hands [fileWalkFunc] an error for an entry
    (a failed [Lstat], a directory that cannot be listed) and that error is
    neither sentinel, this is the last thing that happens and [search]
    returns that error as it is. *)
Theorem X6_traversal_error_aborts root idx (cfg : Config) u tr0 p i e rest :
  let out := search P (stateOf root idx cfg u []) in
  trace (env (snd out)) = (tr0 ++ EvWalkFn p i (Some e) :: rest)%list ->
  isSkipDir e = false -> isSkipAll e = false ->
  rest = [] /\ fst out = Done (Some e).
Proof.
  intros out Htr Hsd Hsa. subst out.
  set (J := fun (_ : gmap string string) (tr : list event) =>
              Forall (fun ev => ~ traversalFailed ev) tr).
  set (B := fun (r : outcome (option error)) (_ : gmap string string)
                (tr : list event) =>
              exists tr1 p1 i1 e1,
                tr = (tr1 ++ [EvWalkFn p1 i1 (Some e1)])%list
                /\ Forall (fun ev => ~ traversalFailed ev) tr1
                /\ isSkipDir e1 = false /\ isSkipAll e1 = false
                /\ r = Done (Some e1)).
  destruct (search_inv P root cfg J B)
    with (idx := idx) (u := u) (tr := @nil event)
    as (r & idx' & u' & tr' & Hs & Hpost).
  - intros q i0 tr HJ. apply Forall_snoc_inv; [done|]. by intros [].
  - intros q i0 tr HJ. apply Forall_snoc_inv; [done|]. by intros [].
  - intros q i0 e0 i1 u0 tr r0 idx' u1 evs HJ Hstep.
    inversion Hstep; subst;
      repeat match goal with
             | H : reportStep _ _ _ _ _ _ |- _ => inversion H; subst; clear H
             end;
      try (left; apply Forall_app; split; [done|];
           repeat (apply List.Forall_cons; [by intros []|]);
           apply List.Forall_nil).
    destruct (isSkipDir err) eqn:H1.
    { left. apply Forall_snoc_inv; [done|]. cbn. rewrite H1. by intros []. }
    destruct (isSkipAll err) eqn:H2.
    { left. apply Forall_snoc_inv; [done|]. cbn. rewrite H2. by intros []. }
    right. by exists tr, q, i0, err.
  - intros r0 i0 tr (tr1 & p1 & i1 & e1 & _ & _ & H1 & H2 & ->). done.
  - constructor.
  - rewrite Hs in Htr |- *. cbn [fst snd env trace] in *.
    destruct Hpost as [HJ|(tr1 & p1 & i1 & e1 & -> & Hcl & H1 & H2 & ->)].
    + rewrite Htr in HJ. apply Forall_app in HJ as [_ HJ].
      apply Forall_cons_iff in HJ as [HJ _]. destruct HJ. done.
    + destruct (last_event_unique traversalFailed tr0 rest tr1
                  (EvWalkFn p i (Some e)) (EvWalkFn p1 i1 (Some e1)))
        as [-> Heq]; try done.
      by injection Heq as <- <- <-.
Qed.

(** ** From predicate to record *)

(** X7: the files handed to [hashFile] are the files the predicate
    accepted, each once and in the same order (none when duplicates are
    allowed), and the records are for the files hashed without error (for
    the accepted files when duplicates are allowed), each once and in the
    same order.  A file the predicate rejects is neither hashed nor
    reported. *)
Theorem X7_accepted_hashed_reported root idx (cfg : Config) u fo :
  FoundFileFn cfg = Some fo ->
  let tr := trace (env (snd (search P (stateOf root idx cfg u [])))) in
  omap hashedPath tr = (if AllowDupes cfg then [] else omap acceptedPath tr)
  /\ omap reportedPath tr
     = (if AllowDupes cfg then omap acceptedPath tr else omap hashedOkPath tr).
Proof.
  intros Hfo.
  set (J := fun (_ : gmap string string) (tr : list event) =>
              omap hashedPath tr
              = (if AllowDupes cfg then [] else omap acceptedPath tr)
              /\ omap reportedPath tr
                 = (if AllowDupes cfg then omap acceptedPath tr
                    else omap hashedOkPath tr)).
  assert (Hblock : forall idx tr evs,
            J idx tr ->
            omap hashedPath evs
            = (if AllowDupes cfg then [] else omap acceptedPath evs) ->
            omap reportedPath evs
            = (if AllowDupes cfg then omap acceptedPath evs
               else omap hashedOkPath evs) ->
            J idx (tr ++ evs)%list).
  { intros i0 tr evs [H1 H2] H3 H4. unfold J. rewrite !omap_app, H1, H2, H3, H4.
    by destruct (AllowDupes cfg). }
  destruct (search_inv P root cfg J (fun _ _ _ => False))
    with (idx := idx) (u := u) (tr := @nil event)
    as (r & idx' & u' & tr' & -> & [HJ|[]]); try done.
  - intros p i0 tr HJ. apply Hblock; [done| |]; cbn; by destruct (AllowDupes cfg).
  - intros p i0 tr HJ. apply Hblock; [done| |]; cbn; by destruct (AllowDupes cfg).
  - intros p i e i0 u0 tr r0 idx' u1 evs HJ Hstep. left.
    inversion Hstep; subst;
      repeat match goal with
             | H : reportStep _ _ _ _ _ _ |- _ => inversion H; subst; clear H
             end; try congruence;
      apply Hblock; try done; cbn;
      repeat match goal with H : AllowDupes cfg = _ |- _ => rewrite H end;
      try done; by destruct (AllowDupes cfg).
  - unfold J. cbn. by destruct (AllowDupes cfg).
Qed.

(** ** The dedup index *)

(** X8: the walk only adds to the dedup index: whatever digest the
    index mapped to a path before [search], it maps to the same path
    afterwards. *)
Theorem X8_index_only_grows root (m : gmap string string) (cfg : Config) u :
  m ⊆ fileHashesToPrevious (self (snd (search P (stateOf root m cfg u [])))).
Proof.
  destruct (search_inv P root cfg (fun idx _ => m ⊆ idx) (fun _ _ _ => False))
    with (idx := m) (u := u) (tr := @nil event)
    as (r & idx' & u' & tr' & -> & [HJ|[]]); try done.
  intros p i e i0 u0 tr r0 idx' u1 evs HJ Hstep. left.
  inversion Hstep; subst; try done.
  etrans; [exact HJ|]. by apply insert_subseteq.
Qed.

Lemma filepath_Join_prefix dir name :
  exists sfx, filepath_Join dir name = dir ++ sfx.
Proof.
  unfold filepath_Join. destruct (String.eqb dir "") eqn:Hd.
  - apply String.eqb_eq in Hd as ->. by exists name.
  - destruct (endsWithSeparator dir); by eexists.
Qed.

(** X9: in a walk that starts with an empty index, put the search root
    in front of a path held in the index and you have the path of a file
    that was hashed to that digest during the walk; the same holds of the
    [PreviousFilePath] of every record marked seen. *)
Theorem X9_stored_path_rejoins_root root (cfg : Config) u :
  let out := search P (stateOf root (∅ : gmap string string) cfg u []) in
  let tr := trace (env (snd out)) in
  map_Forall (fun h v => In (EvHashFile (root ++ v) h None) tr)
    (fileHashesToPrevious (self (snd out)))
  /\ Forall (fun r => AlreadySeen r = true ->
                      In (EvHashFile (root ++ PreviousFilePath r) (Hash r) None) tr)
       (reports tr).
Proof.
  set (J := fun (idx : gmap string string) (tr : list event) =>
              (forall h v, idx !! h = Some v ->
                           In (EvHashFile (root ++ v) h None) tr)
              /\ (forall r res, In (EvFound r res) tr -> AlreadySeen r = true ->
                    In (EvHashFile (root ++ PreviousFilePath r) (Hash r) None) tr)).
  assert (Hmono : forall idx tr evs, J idx tr ->
            (forall r res, In (EvFound r res) evs -> AlreadySeen r = true ->
               In (EvHashFile (root ++ PreviousFilePath r) (Hash r) None)
                  (tr ++ evs)) ->
            J idx (tr ++ evs)%list).
  { intros i0 tr evs [HJa HJb] H3. split.
    - intros h v Hv. apply in_app_iff. left. by apply HJa.
    - intros r res [Hin|Hin]%in_app_iff Hseen.
      + apply in_app_iff. left. by eapply HJb.
      + by eapply H3. }
  destruct (search_rule P root cfg J (fun _ _ _ => False) (fun _ => true)
              (fun p => exists sfx, p = root ++ sfx)
              (fun p => exists sfx, p = root ++ sfx))
    with (idx := (∅ : gmap string string)) (u := u) (tr := @nil event)
    as (r & idx' & u' & tr' & Hs & [[HJa HJb]|[]]); try done.
  - intros p n [sfx0 ->] _.
    destruct (filepath_Join_prefix (root ++ sfx0) n) as [sfx ->].
    exists (sfx0 ++ sfx). apply append_assoc_s.
  - intros p i0 tr HJ. apply Hmono; [done|]. intros ? ? [[=]|[]].
  - intros p i0 tr HJ. apply Hmono; [done|]. intros ? ? [[=]|[]].
  - intros p i e i0 u0 tr r0 idx' u1 evs HR HJ Hstep. left.
    assert (Hp : exists sfx, p = root ++ sfx).
    { destruct HR as [HR|[HR _]]; exact HR. }
    inversion Hstep; subst;
      try (apply Hmono; [done|]; intros ? ? Hin; cbn in Hin;
           repeat destruct Hin as [Hin|Hin]; try done; discriminate).
    + (* first seen: the index gains the path just hashed *)
      destruct Hp as [sfx ->]. destruct HJ as [HJa HJb]. split.
      * intros h0 v. rewrite strings_TrimPrefix_append.
        destruct (decide (h = h0)) as [->|Hne].
        -- rewrite lookup_insert_eq. intros [= <-].
           apply in_app_iff. right. right. right. by left.
        -- rewrite lookup_insert_ne by done. intros Hv.
           apply in_app_iff. left. by apply HJa.
      * intros r res [Hin|Hin]%in_app_iff Hseen.
        -- apply in_app_iff. left. by eapply HJb.
        -- match goal with H : reportStep _ _ _ _ _ _ |- _ =>
             inversion H; subst; clear H end; cbn in Hin;
             repeat destruct Hin as [Hin|Hin]; try done; try discriminate.
           injection Hin as <- _. cbn in Hseen. discriminate.
    + (* seen before: the record carries what the index holds *)
      apply Hmono; [done|]. intros r res Hin Hseen.
      match goal with H : reportStep _ _ _ _ _ _ |- _ =>
        inversion H; subst; clear H end; cbn in Hin;
        repeat destruct Hin as [Hin|Hin]; try done; try discriminate.
      injection Hin as <- _. cbn [PreviousFilePath Hash newReport].
      apply in_app_iff. left. destruct HJ as [HJa _]. by apply HJa.
    + (* duplicates allowed: records are never marked seen *)
      apply Hmono; [done|]. intros r res Hin Hseen.
      match goal with H : reportStep _ _ _ _ _ _ |- _ =>
        inversion H; subst; clear H end; cbn in Hin;
        repeat destruct Hin as [Hin|Hin]; try done; try discriminate.
      injection Hin as <- _. cbn in Hseen. discriminate.
  - exists "". apply append_empty_right.
  - intros e _. split; [apply namesOk_any|]. left. exists "".
    apply append_empty_right.
  - cbn zeta. rewrite Hs. cbn [fst snd env trace self fileHashesToPrevious]. split.
    + intros h v Hv. by apply HJa.
    + apply List.Forall_forall. intros r1 [res Hin]%In_reports Hseen.
      by eapply HJb.
Qed.

(** ** A whole walk *)

Lemma includedPaths_app tr1 tr2 :
  includedPaths (tr1 ++ tr2) = (includedPaths tr1 ++ includedPaths tr2)%list.
Proof.
  induction tr1 as [|ev tr1 IH]; [done|].
  destruct ev; cbn; by rewrite ?IH.
Qed.

Section Validated.

Variable root : string.
Variable cfg : Config.
Variable fi : string -> U -> bool * U.
Variable fo : StatefulFileInfo -> U -> option error * U.
Hypothesis Hfi : IncludeFileFn cfg = Some fi.
Hypothesis Hfo : FoundFileFn cfg = Some fo.

Local Open Scope list_scope.

Ltac visit_cases Hs :=
  inversion Hs; subst;
  repeat match goal with
         | H : Some _ = Some _ |- _ => injection H as <-
         | H : reportStep _ _ _ _ _ _ |- _ => inversion H; subst; clear H
         end;
  try congruence.

(** An error from the traversal comes back as it is. *)
Lemma fileWalkFunc_error p i err idx u tr :
  fileWalkFunc P p i (Some err) (stateOf root idx cfg u tr)
  = (Done (Some err), stateOf root idx cfg u (tr ++ [EvWalkFn p i (Some err)])).
Proof.
  destruct (fileWalkFunc_step P p i (Some err) root idx cfg u tr)
    as (r & idx' & u' & evs & -> & Hs).
  visit_cases Hs.
Qed.

Lemma fileWalkFunc_pruned p info idx u tr :
  pruned cfg root p info = true ->
  fileWalkFunc P p (Some info) None (stateOf root idx cfg u tr)
  = (Done (Some SkipDir),
     stateOf root idx cfg u (tr ++ [EvWalkFn p (Some info) None])).
Proof.
  intros Hpr.
  destruct (fileWalkFunc_step P p (Some info) None root idx cfg u tr)
    as (r & idx' & u' & evs & -> & Hs).
  assert (Hreg : regularFile info = false).
  { unfold pruned in Hpr. unfold regularFile.
    destruct (IsDir info); [done|]. by rewrite andb_false_r in Hpr. }
  visit_cases Hs.
Qed.

(** A visit that is not pruned: it ends without a panic, without an error
    unless the log shows one, and the predicate saw the entry exactly when
    it is a regular file. *)
Lemma fileWalkFunc_visit p info idx u tr :
  pruned cfg root p info = false ->
  exists r idx' u' evs,
    fileWalkFunc P p (Some info) None (stateOf root idx cfg u tr)
    = (Done r, stateOf root idx' cfg u' (tr ++ EvWalkFn p (Some info) None :: evs))
    /\ (forallb uneventful evs = true -> r = None)
    /\ includedPaths evs = if regularFile info then [p] else [].
Proof.
  intros Hpr.
  destruct (fileWalkFunc_step P p (Some info) None root idx cfg u tr)
    as (r & idx' & u' & evs & -> & Hs).
  visit_cases Hs;
    eexists _, _, _, _; (split; [reflexivity|]);
    match goal with H : regularFile _ = _ |- _ => rewrite H end;
    (split; [|reflexivity]); cbn; try done;
    match goal with |- context [match ?res with Some _ => _ | None => _ end] =>
      by destruct res
    end.
Qed.

Lemma walk_runs :
  (forall e p idx u tr,
      exists r idx' u' evs,
        walk (fileWalkFunc P) p e (stateOf root idx cfg u tr)
        = (Done r, stateOf root idx' cfg u' (tr ++ evs))
        /\ (Recursive cfg = true -> forallb uneventful evs = true ->
            r = None /\ includedPaths evs = regularPaths p e))
  /\ (forall names p idx u tr,
      exists r idx' u' evs,
        walkNames (fileWalkFunc P) p names (stateOf root idx cfg u tr)
        = (Done r, stateOf root idx' cfg u' (tr ++ evs))
        /\ (Recursive cfg = true -> forallb uneventful evs = true ->
            r = None /\ includedPaths evs = regularPathsIn p names)).
Proof.
  apply fs_mutind.
  - intros info rd names IH p idx u tr.
    destruct (IsDir info) eqn:Hd.
    + rewrite walk_dir by done. unfold logEvent, logWorld; cbn [self env caller trace].
      destruct rd as [err|].
      { rewrite fileWalkFunc_error. cbn [notNil orb].
        exists (Some err), idx, u, [EvReadDir p; EvWalkFn p (Some info) (Some err)].
        split; [by rewrite <- app_assoc|]. intros _ Hu. discriminate Hu. }
      destruct (pruned cfg root p info) eqn:Hpr.
      { rewrite fileWalkFunc_pruned by done. cbn [notNil orb].
        exists (Some SkipDir), idx, u, [EvReadDir p; EvWalkFn p (Some info) None].
        split; [by rewrite <- app_assoc|]. intros Hrec _.
        unfold pruned in Hpr. by rewrite Hrec in Hpr. }
      destruct (fileWalkFunc_visit p info idx u (tr ++ [EvReadDir p]) Hpr)
        as (r & idx1 & u1 & evs & -> & Hr & Hinc).
      assert (Hreg : regularFile info = false) by (unfold regularFile; by rewrite Hd).
      rewrite Hreg in Hinc.
      destruct r as [e1|]; cbn [notNil orb].
      { exists (Some e1), idx1, u1, (EvReadDir p :: EvWalkFn p (Some info) None :: evs).
        split; [by rewrite <- app_assoc|]. intros _ Hu. cbn in Hu.
        by specialize (Hr Hu). }
      destruct (IH p idx1 u1 ((tr ++ [EvReadDir p]) ++ EvWalkFn p (Some info) None :: evs))
        as (r2 & idx2 & u2 & evs2 & -> & H2).
      exists r2, idx2, u2, (EvReadDir p :: EvWalkFn p (Some info) None :: evs ++ evs2).
      split; [by rewrite <- !app_assoc|].
      intros Hrec Hu. cbn [forallb uneventful andb] in Hu.
      rewrite forallb_app in Hu. apply andb_prop in Hu as [Hu1 Hu2].
      destruct (H2 Hrec Hu2) as [-> Hinc2]. split; [done|].
      cbn [includedPaths regularPaths]. by rewrite Hd, includedPaths_app, Hinc, Hinc2.
    + rewrite walk_file by done.
      assert (Hpr : pruned cfg root p info = false).
      { unfold pruned. rewrite Hd. by rewrite andb_false_r. }
      destruct (fileWalkFunc_visit p info idx u tr Hpr)
        as (r & idx1 & u1 & evs & -> & Hr & Hinc).
      eexists _, _, _, _. split; [reflexivity|]. intros _ Hu. cbn in Hu.
      split; [by apply Hr|]. cbn [includedPaths regularPaths].
      rewrite Hd, Hinc. unfold regularFile. by rewrite Hd.
  - intros p idx u tr. exists None, idx, u, []. split; [by rewrite app_nil_r|done].
  - intros name lerr rest IH p idx u tr. rewrite walkNames_StatFails.
    unfold logEvent, logWorld; cbn [self env caller trace].
    rewrite fileWalkFunc_error. set (q := filepath_Join p name).
    destruct (isSkipDir lerr).
    + destruct (IH p idx u ((tr ++ [EvLstat q]) ++ [EvWalkFn q None (Some lerr)]))
        as (r2 & idx2 & u2 & evs2 & -> & _).
      exists r2, idx2, u2, (EvLstat q :: EvWalkFn q None (Some lerr) :: evs2).
      split; [by rewrite <- !app_assoc|]. intros _ Hu. discriminate Hu.
    + exists (Some lerr), idx, u, [EvLstat q; EvWalkFn q None (Some lerr)].
      split; [by rewrite <- !app_assoc|]. intros _ Hu. discriminate Hu.
  - intros name e IHe rest IH p idx u tr. rewrite walkNames_Child.
    unfold logEvent, logWorld; cbn [self env caller trace].
    set (q := filepath_Join p name).
    destruct (IHe q idx u (tr ++ [EvLstat q])) as (r & idx1 & u1 & evs & -> & H1).
    destruct (IH p idx1 u1 ((tr ++ [EvLstat q]) ++ evs))
      as (r2 & idx2 & u2 & evs2 & Hrest & H2).
    assert (Hgo : walkNames (fileWalkFunc P) p rest
                (stateOf root idx1 cfg u1 ((tr ++ [EvLstat q]) ++ evs))
              = (Done r2, stateOf root idx2 cfg u2 (tr ++ EvLstat q :: evs ++ evs2))
              /\ (Recursive cfg = true ->
                  forallb uneventful (EvLstat q :: evs ++ evs2) = true ->
                  r2 = None
                  /\ includedPaths (EvLstat q :: evs ++ evs2)
                     = regularPathsIn p (Child name e rest))).
    { split; [by rewrite Hrest, <- !app_assoc|].
      intros Hrec Hu. cbn [forallb uneventful andb] in Hu.
      rewrite forallb_app in Hu. apply andb_prop in Hu as [Hu1 Hu2].
      destruct (H1 Hrec Hu1) as [_ Hinc1]. destruct (H2 Hrec Hu2) as [-> Hinc2].
      split; [done|]. cbn [includedPaths regularPathsIn].
      by rewrite includedPaths_app, Hinc1, Hinc2. }
    clear Hrest H2.
    destruct r as [e'|].
    2:{ destruct Hgo as [-> Hgo]. by exists r2, idx2, u2, (EvLstat q :: evs ++ evs2). }
    destruct (negb (IsDir (entryInfo e)) || negb (isSkipDir e')).
    + exists (Some e'), idx1, u1, (EvLstat q :: evs).
      split; [by rewrite <- !app_assoc|]. intros Hrec Hu. cbn in Hu.
      by destruct (H1 Hrec Hu).
    + destruct Hgo as [-> _].
      exists r2, idx2, u2, (EvLstat q :: evs ++ evs2). split; [done|].
      intros Hrec Hu. cbn [forallb uneventful andb] in Hu.
      rewrite forallb_app in Hu. apply andb_prop in Hu as [Hu1 _].
      by destruct (H1 Hrec Hu1).
Qed.

Lemma search_runs idx u tr :
  exists r idx' u' evs,
    search P (stateOf root idx cfg u tr) = (Done r, stateOf root idx' cfg u' (tr ++ evs))
    /\ (Recursive cfg = true -> forallb uneventful evs = true ->
        r = None /\ includedPaths evs = regularPathsAt root (os_Lstat P root)).
Proof.
  rewrite search_unfold, Walk_unfold.
  unfold logEvent, logWorld; cbn [self env caller trace].
  destruct (os_Lstat P root) as [lerr|e].
  - rewrite fileWalkFunc_error.
    exists (if isSkipDir lerr || isSkipAll lerr then None else Some lerr),
      idx, u, [EvLstat root; EvWalkFn root None (Some lerr)].
    split; [|intros _ Hu; discriminate Hu].
    rewrite <- !app_assoc. by destruct (isSkipDir lerr || isSkipAll lerr).
  - destruct (proj1 walk_runs e root idx u (tr ++ [EvLstat root]))
      as (r & idx1 & u1 & evs & -> & H1).
    exists (match r with
            | Some e' => if isSkipDir e' || isSkipAll e' then None else Some e'
            | None => None
            end), idx1, u1, (EvLstat root :: evs).
    split.
    + rewrite <- !app_assoc. destruct r as [e'|]; [|done].
      by destruct (isSkipDir e' || isSkipAll e').
    + intros Hrec Hu. cbn in Hu. cbn [includedPaths regularPathsAt].
      by destruct (H1 Hrec Hu) as [-> ->].
Qed.

(** *** Without recursion *)

Section Shallow.

Hypothesis Hflat : Recursive cfg = false.

Lemma walk_shallow e p idx u tr :
  p <> root ->
  exists r idx' u' evs,
    walk (fileWalkFunc P) p e (stateOf root idx cfg u tr)
    = (Done r, stateOf root idx' cfg u' (tr ++ evs))
    /\ (forallb uneventful evs = true ->
        (r = None \/ (IsDir (entryInfo e) = true /\ r = Some SkipDir))
        /\ includedPaths evs = if regularFile (entryInfo e) then [p] else []).
Proof.
  intros Hp. destruct e as [info rd names]. cbn [entryInfo].
  destruct (IsDir info) eqn:Hd.
  - rewrite walk_dir by done. unfold logEvent, logWorld; cbn [self env caller trace].
    destruct rd as [err|].
    { rewrite fileWalkFunc_error. cbn [notNil orb].
      exists (Some err), idx, u, [EvReadDir p; EvWalkFn p (Some info) (Some err)].
      split; [by rewrite <- app_assoc|]. intros Hu. discriminate Hu. }
    assert (Hpr : pruned cfg root p info = true).
    { unfold pruned. rewrite Hflat, Hd. cbn [negb andb].
      by apply negb_true_iff, String.eqb_neq. }
    rewrite fileWalkFunc_pruned by done. cbn [notNil orb].
    exists (Some SkipDir), idx, u, [EvReadDir p; EvWalkFn p (Some info) None].
    split; [by rewrite <- app_assoc|]. intros _. split; [by right|].
    unfold regularFile. by rewrite Hd.
  - rewrite walk_file by done.
    assert (Hpr : pruned cfg root p info = false).
    { unfold pruned. rewrite Hd. by rewrite andb_false_r. }
    destruct (fileWalkFunc_visit p info idx u tr Hpr)
      as (r & idx1 & u1 & evs & -> & Hr & Hinc).
    eexists _, _, _, _. split; [reflexivity|]. intros Hu. cbn in Hu.
    split; [left; by apply Hr|]. cbn [includedPaths]. by rewrite Hinc.
Qed.

Lemma walkNames_shallow names :
  listingNamesOk validName names = true ->
  forall idx u tr,
  exists r idx' u' evs,
    walkNames (fileWalkFunc P) root names (stateOf root idx cfg u tr)
    = (Done r, stateOf root idx' cfg u' (tr ++ evs))
    /\ (forallb uneventful evs = true ->
        r = None /\ includedPaths evs = regularChildrenIn root names).
Proof.
  induction names as [|name lerr rest IH|name e rest IH]; intros Hok idx u tr.
  - exists None, idx, u, []. split; [by rewrite app_nil_r|done].
  - cbn [listingNamesOk] in Hok. apply andb_prop in Hok as [Hn Hrest].
    rewrite walkNames_StatFails.
    unfold logEvent, logWorld; cbn [self env caller trace].
    rewrite fileWalkFunc_error. set (q := filepath_Join root name).
    destruct (isSkipDir lerr).
    + destruct (IH Hrest idx u ((tr ++ [EvLstat q]) ++ [EvWalkFn q None (Some lerr)]))
        as (r2 & idx2 & u2 & evs2 & -> & _).
      exists r2, idx2, u2, (EvLstat q :: EvWalkFn q None (Some lerr) :: evs2).
      split; [by rewrite <- !app_assoc|]. intros Hu. discriminate Hu.
    + exists (Some lerr), idx, u, [EvLstat q; EvWalkFn q None (Some lerr)].
      split; [by rewrite <- !app_assoc|]. intros Hu. discriminate Hu.
  - cbn [listingNamesOk] in Hok. apply andb_prop in Hok as [Hok Hrest].
    apply andb_prop in Hok as [Hn He].
    rewrite walkNames_Child.
    unfold logEvent, logWorld; cbn [self env caller trace].
    set (q := filepath_Join root name).
    destruct (walk_shallow e q idx u (tr ++ [EvLstat q]))
      as (r & idx1 & u1 & evs & -> & H1).
    { by apply filepath_Join_neq. }
    destruct (IH Hrest idx1 u1 ((tr ++ [EvLstat q]) ++ evs))
      as (r2 & idx2 & u2 & evs2 & Hgo & H2).
    assert (Hpost : forallb uneventful (EvLstat q :: evs ++ evs2) = true ->
              r2 = None
              /\ includedPaths (EvLstat q :: evs ++ evs2)
                 = regularChildrenIn root (Child name e rest)).
    { intros Hu. cbn [forallb uneventful andb] in Hu.
      rewrite forallb_app in Hu. apply andb_prop in Hu as [Hu1 Hu2].
      destruct (H1 Hu1) as [_ Hinc1]. destruct (H2 Hu2) as [-> Hinc2].
      split; [done|]. cbn [includedPaths regularChildrenIn].
      by rewrite includedPaths_app, Hinc1, Hinc2. }
    assert (Hrest' : walkNames (fileWalkFunc P) root rest
                       (stateOf root idx1 cfg u1 ((tr ++ [EvLstat q]) ++ evs))
                     = (Done r2, stateOf root idx2 cfg u2
                                   (tr ++ EvLstat q :: evs ++ evs2))).
    { by rewrite Hgo, <- !app_assoc. }
    clear Hgo H2.
    destruct r as [e'|].
    2:{ rewrite Hrest'. by exists r2, idx2, u2, (EvLstat q :: evs ++ evs2). }
    destruct (negb (IsDir (entryInfo e)) || negb (isSkipDir e')) eqn:Hc.
    + exists (Some e'), idx1, u1, (EvLstat q :: evs).
      split; [by rewrite <- !app_assoc|]. intros Hu. cbn in Hu.
      destruct (H1 Hu) as [[Hr|[Hd [= ->]]] _]; [done|].
      rewrite Hd in Hc. done.
    + rewrite Hrest'. by exists r2, idx2, u2, (EvLstat q :: evs ++ evs2).
Qed.

Lemma search_shallow idx u tr :
  treeNamesOk (os_Lstat P root) = true ->
  exists r idx' u' evs,
    search P (stateOf root idx cfg u tr) = (Done r, stateOf root idx' cfg u' (tr ++ evs))
    /\ (forallb uneventful evs = true ->
        r = None /\ includedPaths evs = regularPathsTop root (os_Lstat P root)).
Proof.
  intros Hok. rewrite search_unfold, Walk_unfold.
  unfold logEvent, logWorld; cbn [self env caller trace].
  destruct (os_Lstat P root) as [lerr|[info rd names]].
  { rewrite fileWalkFunc_error.
    exists (if isSkipDir lerr || isSkipAll lerr then None else Some lerr),
      idx, u, [EvLstat root; EvWalkFn root None (Some lerr)].
    split; [|intros Hu; discriminate Hu].
    rewrite <- !app_assoc. by destruct (isSkipDir lerr || isSkipAll lerr). }
  cbn [treeNamesOk entryNamesOk] in Hok.
  assert (Hpr : pruned cfg root root info = false).
  { unfold pruned. rewrite String.eqb_refl. by rewrite andb_false_r. }
  enough (Hw : exists r idx' u' evs,
            walk (fileWalkFunc P) root (Entry info rd names)
              (stateOf root idx cfg u (tr ++ [EvLstat root]))
            = (Done r, stateOf root idx' cfg u' (tr ++ evs))
            /\ (forallb uneventful evs = true ->
                r = None
                /\ includedPaths evs
                   = regularPathsTop root (inr (Entry info rd names)))).
  { destruct Hw as (r & idx1 & u1 & evs & -> & H1).
    exists (match r with
            | Some e' => if isSkipDir e' || isSkipAll e' then None else Some e'
            | None => None
            end), idx1, u1, evs.
    split.
    - destruct r as [e'|]; [|done]. by destruct (isSkipDir e' || isSkipAll e').
    - intros Hu. by destruct (H1 Hu) as [-> ->]. }
  cbn [regularPathsTop].
  destruct (IsDir info) eqn:Hd.
  - rewrite walk_dir by done. unfold logEvent, logWorld; cbn [self env caller trace].
    destruct rd as [err|].
    { rewrite fileWalkFunc_error. cbn [notNil orb].
      exists (Some err), idx, u,
        [EvLstat root; EvReadDir root; EvWalkFn root (Some info) (Some err)].
      split; [by rewrite <- !app_assoc|]. intros Hu. discriminate Hu. }
    destruct (fileWalkFunc_visit root info idx u
                ((tr ++ [EvLstat root]) ++ [EvReadDir root]) Hpr)
      as (r & idx1 & u1 & evs & -> & Hr & Hinc).
    assert (Hreg : regularFile info = false) by (unfold regularFile; by rewrite Hd).
    rewrite Hreg in Hinc.
    destruct r as [e1|]; cbn [notNil orb].
    { exists (Some e1), idx1, u1,
        (EvLstat root :: EvReadDir root :: EvWalkFn root (Some info) None :: evs).
      split; [by rewrite <- !app_assoc|]. intros Hu. cbn in Hu.
      by specialize (Hr Hu). }
    destruct (walkNames_shallow names Hok idx1 u1
                (((tr ++ [EvLstat root]) ++ [EvReadDir root])
                   ++ EvWalkFn root (Some info) None :: evs))
      as (r2 & idx2 & u2 & evs2 & -> & H2).
    exists r2, idx2, u2,
      (EvLstat root :: EvReadDir root :: EvWalkFn root (Some info) None :: evs ++ evs2).
    split; [by rewrite <- !app_assoc|].
    intros Hu. cbn [forallb uneventful andb] in Hu.
    rewrite forallb_app in Hu. apply andb_prop in Hu as [Hu1 Hu2].
    destruct (H2 Hu2) as [-> Hinc2]. split; [done|].
    cbn [includedPaths]. by rewrite includedPaths_app, Hinc, Hinc2.
  - rewrite walk_file by done.
    destruct (fileWalkFunc_visit root info idx u (tr ++ [EvLstat root]) Hpr)
      as (r & idx1 & u1 & evs & -> & Hr & Hinc).
    exists r, idx1, u1, (EvLstat root :: EvWalkFn root (Some info) None :: evs).
    split; [by rewrite <- !app_assoc|]. intros Hu. cbn in Hu.
    split; [by apply Hr|]. cbn [includedPaths]. rewrite Hinc.
    unfold regularFile. by rewrite Hd.
Qed.

End Shallow.

End Validated.

(** X11: in a recursive walk whose log shows no error (none from the
    traversal, from hashing or from [FoundFileFn]), [search] returns nil
    and [IncludeFileFn] was asked about exactly the regular files at and
    below the root, each once, in the order of the traversal. *)
Theorem X11_recursive_walk_asks_about_every_regular_file
    root idx (cfg : Config) u fi fo :
  IncludeFileFn cfg = Some fi -> FoundFileFn cfg = Some fo ->
  Recursive cfg = true ->
  let out := search P (stateOf root idx cfg u []) in
  forallb uneventful (trace (env (snd out))) = true ->
  fst out = Done None
  /\ includedPaths (trace (env (snd out))) = regularPathsAt root (os_Lstat P root).
Proof.
  intros Hfi Hfo Hrec out Hu. subst out.
  destruct (search_runs root cfg fi fo Hfi Hfo idx u [])
    as (r & idx' & u' & evs & Hs & H1).
  rewrite Hs in Hu |- *. cbn [fst snd env trace app] in *.
  by destruct (H1 Hrec Hu) as [-> ->].
Qed.

(** X12: in a walk without recursion whose log shows no error,
    [search] returns nil and [IncludeFileFn] was asked about exactly the
    regular files directly in the root (or the root itself when it is a
    regular file), each once, in the order of the listing. *)
Theorem X12_flat_walk_asks_about_regular_children
    root idx (cfg : Config) u fi fo :
  IncludeFileFn cfg = Some fi -> FoundFileFn cfg = Some fo ->
  Recursive cfg = false ->
  treeNamesOk (os_Lstat P root) = true ->
  let out := search P (stateOf root idx cfg u []) in
  forallb uneventful (trace (env (snd out))) = true ->
  fst out = Done None
  /\ includedPaths (trace (env (snd out))) = regularPathsTop root (os_Lstat P root).
Proof.
  intros Hfi Hfo Hrec Hok out Hu. subst out.
  destruct (search_shallow root cfg fi fo Hfi Hfo Hrec idx u [] Hok)
    as (r & idx' & u' & evs & Hs & H1).
  rewrite Hs in Hu |- *. cbn [fst snd env trace app] in *.
  by destruct (H1 Hu) as [-> ->].
Qed.

(** X13: with duplicates not allowed and [FoundFileFn] set, after a walk
    that starts with an empty index the digests held in the index are
    exactly the digests of the records handed to [FoundFileFn]. *)
Theorem X13_index_keys_are_reported_digests root (cfg : Config) u fo :
  FoundFileFn cfg = Some fo -> AllowDupes cfg = false ->
  let out := search P (stateOf root (∅ : gmap string string) cfg u []) in
  forall h,
    is_Some (fileHashesToPrevious (self (snd out)) !! h)
    <-> In h (List.map Hash (reports (trace (env (snd out))))).
Proof.
  intros Hfo Hdup out. subst out.
  set (J := fun (idx : gmap string string) (tr : list event) =>
              forall h, is_Some (idx !! h) <-> In h (List.map Hash (reports tr))).
  assert (Hkeep : forall idx tr evs, J idx tr -> reports evs = [] ->
                                     J idx (tr ++ evs)%list).
  { intros i0 tr evs HJ Hev h. rewrite reports_app, Hev, app_nil_r. apply HJ. }
  destruct (search_inv P root cfg J (fun _ _ _ => False))
    with (idx := (∅ : gmap string string)) (u := u) (tr := @nil event)
    as (r & idx' & u' & tr' & -> & [HJ|[]]); try done.
  - intros p i0 tr HJ. by apply Hkeep.
  - intros p i0 tr HJ. by apply Hkeep.
  - intros p i e i0 u0 tr r0 idx' u1 evs HJ Hstep. left.
    inversion Hstep; subst;
      repeat match goal with
             | H : reportStep _ _ _ _ _ _ |- _ => inversion H; subst; clear H
             end; try congruence; try (by apply Hkeep).
    + intros h0. rewrite reports_app, map_app, in_app_iff. cbn.
      destruct (decide (h = h0)) as [->|Hne].
      * rewrite lookup_insert_eq. split; [intros _; right; by left|by eexists].
      * rewrite lookup_insert_ne by done. rewrite (HJ h0). split; [by left|].
        intros [Hin|[Heq|[]]]; [done|by destruct Hne].
    + intros h0. rewrite reports_app, map_app, in_app_iff. cbn.
      rewrite (HJ h0). split; [by left|].
      intros [Hin|[<-|[]]]; [done|]. apply HJ. by eexists.
  - intros h. cbn. rewrite lookup_empty. split; [by intros [? [=]]|done].
Qed.

(** ** First seen, then duplicates *)

Lemma omap_reportedPath tr : omap reportedPath tr = List.map FilePath (reports tr).
Proof.
  induction tr as [|ev tr IH]; [done|]. destruct ev; cbn; by rewrite ?IH.
Qed.

(** With dedup tracking on, what was accepted was hashed and what was
    hashed without error was reported, whatever the log held before. *)
Lemma search_accounting root (cfg : Config) fo idx u (tr0 : list event) :
  FoundFileFn cfg = Some fo -> AllowDupes cfg = false ->
  omap hashedPath tr0 = omap acceptedPath tr0 ->
  omap reportedPath tr0 = omap hashedOkPath tr0 ->
  let tr := trace (env (snd (search P (stateOf root idx cfg u tr0)))) in
  omap hashedPath tr = omap acceptedPath tr
  /\ omap reportedPath tr = omap hashedOkPath tr.
Proof.
  intros Hfo Hdup Hh0 Hr0.
  set (J := fun (_ : gmap string string) (tr : list event) =>
              omap hashedPath tr = omap acceptedPath tr
              /\ omap reportedPath tr = omap hashedOkPath tr).
  assert (Hblock : forall idx tr evs,
            J idx tr ->
            omap hashedPath evs = omap acceptedPath evs ->
            omap reportedPath evs = omap hashedOkPath evs ->
            J idx (tr ++ evs)%list).
  { intros i0 tr evs [H1 H2] H3 H4. unfold J. by rewrite !omap_app, H1, H2, H3, H4. }
  destruct (search_inv P root cfg J (fun _ _ _ => False))
    with (idx := idx) (u := u) (tr := tr0)
    as (r & idx' & u' & tr' & -> & [HJ|[]]); try done.
  - intros p i0 tr HJ. by apply Hblock.
  - intros p i0 tr HJ. by apply Hblock.
  - intros p i e i0 u0 tr r0 idx' u1 evs HJ Hstep. left.
    inversion Hstep; subst;
      repeat match goal with
             | H : reportStep _ _ _ _ _ _ |- _ => inversion H; subst; clear H
             end; try congruence; by apply Hblock.
Qed.

(** The digest in a record is the digest of the file the record is for. *)
Lemma search_records_hashed root (cfg : Config) idx u (tr0 : list event) :
  reports tr0 = [] ->
  Forall (reportHashed P cfg)
    (reports (trace (env (snd (search P (stateOf root idx cfg u tr0)))))).
Proof.
  intros H0.
  destruct (search_inv P root cfg
              (fun _ tr => Forall (reportHashed P cfg) (reports tr))
              (fun _ _ _ => False))
    with (idx := idx) (u := u) (tr := tr0)
    as (r & idx' & u' & tr' & -> & [HJ|[]]); try done.
  - intros p i0 tr HJ. by rewrite reports_app, app_nil_r.
  - intros p i0 tr HJ. by rewrite reports_app, app_nil_r.
  - intros p i e i0 u0 tr r0 idx' u1 evs HJ Hstep. left.
    assert (Hhash : forall h, hashFile P p (pickHasher P cfg) = (h, None) ->
              exists data, os_Open P p = Contents data
                           /\ h = hex_EncodeToString (pickHasher P cfg data)).
    { intros h Hh. unfold hashFile in Hh. destruct (os_Open P p) as [?|?|data];
        try discriminate. exists data. split; [done|]. by injection Hh. }
    rewrite reports_app. apply Forall_app. split; [done|].
    inversion Hstep; subst;
      repeat match goal with
             | H : reportStep _ _ _ _ _ _ |- _ => inversion H; subst; clear H
             end; cbn [reports];
      try apply List.Forall_nil;
      (apply List.Forall_cons; [|apply List.Forall_nil]);
      unfold reportHashed; cbn [Hash FilePath newReport];
      match goal with H : AllowDupes cfg = _ |- _ => rewrite H end;
      try done; by apply Hhash.
  - rewrite H0. apply List.Forall_nil.
Qed.

(** Every record is for a path the traversal built from the root. *)
Lemma search_records_on_paths root (cfg : Config) (R : string -> Prop)
    idx u (tr0 : list event) :
  R root ->
  (forall p n, R p -> R (filepath_Join p n)) ->
  reports tr0 = [] ->
  Forall (fun r => R (FilePath r))
    (reports (trace (env (snd (search P (stateOf root idx cfg u tr0)))))).
Proof.
  intros Hroot Hchild H0.
  destruct (search_rule P root cfg
              (fun _ tr => Forall (fun r => R (FilePath r)) (reports tr))
              (fun _ _ _ => False) (fun _ => true) R R)
    with (idx := idx) (u := u) (tr := tr0)
    as (r & idx' & u' & tr' & -> & [HJ|[]]); try done.
  - intros p n Hp _. by apply Hchild.
  - intros p i0 tr HJ. by rewrite reports_app, app_nil_r.
  - intros p i0 tr HJ. by rewrite reports_app, app_nil_r.
  - intros p i e i0 u0 tr r0 idx' u1 evs HR HJ Hstep. left.
    assert (Hp : R p) by (destruct HR as [HR|[HR _]]; exact HR).
    rewrite reports_app. apply Forall_app. split; [done|].
    inversion Hstep; subst;
      repeat match goal with
             | H : reportStep _ _ _ _ _ _ |- _ => inversion H; subst; clear H
             end; cbn [reports];
      try apply List.Forall_nil;
      (apply List.Forall_cons; [exact Hp|apply List.Forall_nil]).
  - intros e _. split; [apply namesOk_any|by left].
  - rewrite H0. apply List.Forall_nil.
Qed.

Lemma firstWith_Some h l r0 :
  firstWith h l = Some r0 -> In r0 l /\ Hash r0 = h.
Proof.
  unfold firstWith. intros [Hin Heq]%List.find_some.
  split; [done|]. by apply String.eqb_eq.
Qed.

Lemma String_neq_self c (s : string) : String c s <> s.
Proof.
  intros H. apply (f_equal String.length) in H. cbn in H. lia.
Qed.

(** Below a root that does not end in a separator, what [filepath.Join]
    adds to the root starts with one. *)
Lemma filepath_Join_separator root sfx name :
  root <> "" -> endsWithSeparator root = false ->
  sfx = "" \/ (exists s, sfx = String "/" s) ->
  exists s, filepath_Join (root ++ sfx) name = root ++ String "/" s.
Proof.
  intros Hne Hsep Hs. unfold filepath_Join.
  assert (Hnz : String.eqb (root ++ sfx) "" = false).
  { apply String.eqb_neq. intros H. destruct root; [done|].
    rewrite append_cons in H. discriminate. }
  rewrite Hnz. destruct Hs as [->|[s ->]].
  - rewrite <- append_empty_right, Hsep. by exists name.
  - destruct (endsWithSeparator (root ++ String "/" s)).
    + exists (s ++ name). by rewrite append_assoc_s, append_cons.
    + exists (s ++ "/" ++ name). by rewrite append_assoc_s, append_cons.
Qed.

(** What the walker stores for a path built from the root, against the
    path relative to the root. *)
Lemma storedPath_not_relative root sfx :
  sfx = "" \/ (exists s, sfx = String "/" s) ->
  storedPath root (root ++ sfx) <> spec_relativePath root (root ++ sfx).
Proof.
  unfold storedPath, spec_relativePath. rewrite strings_TrimPrefix_append.
  intros [->|[s ->]]; [discriminate|]. cbn. apply String_neq_self.
Qed.

(** C1: with dedup tracking on, in the walk of a fresh walker every
    accepted file is hashed, and every file hashed without error gets one
    record, in the order of the walk; the digest in a record is that of its
    file.  A record none of whose predecessors has its digest is marked
    unseen, and the index then maps the digest to a value for that file; a
    record with such a predecessor is marked seen and carries the value
    stored for the earliest one, which the index still holds; so each digest
    reported has exactly one record marked unseen.  The value stored for a
    file is what is left of its path after the root is cut off in front
    (the root followed by the value is the path); unless the root ends in a
    separator this is not the path relative to the root. *)
Theorem C1_first_seen_then_duplicates (cfg : Config) u sfw w1 :
  AllowDupes cfg = false ->
  newFileWalker P cfg (mkWorld u []) = (Done (inr sfw), w1) ->
  let out := search P (mkState sfw w1) in
  let tr := trace (env (snd out)) in
  let rs := reports tr in
  let idx := fileHashesToPrevious (self (snd out)) in
  let root := absTargetDirPath sfw in
  (omap hashedPath tr = omap acceptedPath tr
   /\ List.map FilePath rs = omap hashedOkPath tr)
  /\ (forall l1 r l2,
        rs = (l1 ++ r :: l2)%list ->
        (exists data,
            os_Open P (FilePath r) = Contents data
            /\ Hash r = hex_EncodeToString (pickHasher P cfg data))
        /\ match firstWith (Hash r) l1 with
           | None =>
               AlreadySeen r = false
               /\ exists v, idx !! Hash r = Some v /\ root ++ v = FilePath r
           | Some r0 =>
               AlreadySeen r = true
               /\ root ++ PreviousFilePath r = FilePath r0
               /\ idx !! Hash r = Some (PreviousFilePath r)
               /\ (root <> "" -> endsWithSeparator root = false ->
                   PreviousFilePath r <> spec_relativePath root (FilePath r0))
           end)
  /\ (forall r, In r rs -> countUnseen (Hash r) rs = 1%nat).
Proof.
  intros Hdup Hnew.
  pose proof (dedup_verdicts P cfg u sfw w1 Hdup Hnew) as Hold.
  destruct (newFileWalker_ok P _ _ _ _ Hnew)
    as (root & fi & fo & _ & _ & Hfo & -> & ->).
  cbn zeta in Hold. destruct Hold as [Hver Hcnt].
  unfold logWorld in *; cbn [caller trace app absTargetDirPath] in *.
  pose proof (search_accounting root cfg fo ∅ u [EvAbs (TargetDirPath cfg)]
                Hfo Hdup eq_refl eq_refl) as [Hacc1 Hacc2].
  pose proof (search_records_hashed root cfg ∅ u [EvAbs (TargetDirPath cfg)]
                eq_refl) as Hhashed.
  pose proof (search_records_on_paths root cfg
                (fun p => exists sfx, p = root ++ sfx)
                ∅ u [EvAbs (TargetDirPath cfg)]) as Hext.
  cbn zeta. split; [|split].
  - split; [exact Hacc1|]. by rewrite <- omap_reportedPath.
  - intros l1 r l2 Heq.
    assert (Hin : forall x, In x (l1 ++ [r]) ->
              In x (reports (trace (env (snd (search P
                      (stateOf root ∅ cfg u [EvAbs (TargetDirPath cfg)]))))))).
    { intros x Hx. rewrite Heq. apply in_app_iff.
      apply in_app_iff in Hx as [Hx|[<-|[]]]; [by left|right; by left]. }
    assert (Hstored : forall x, In x (l1 ++ [r]) ->
              root ++ storedPath root (FilePath x) = FilePath x).
    { intros x Hx%Hin.
      assert (HF : Forall (fun r => exists sfx, FilePath r = root ++ sfx)
                     (reports (trace (env (snd (search P
                        (stateOf root ∅ cfg u [EvAbs (TargetDirPath cfg)]))))))).
      { apply Hext; [exists ""; apply append_empty_right| |done].
        intros p n [sfx0 ->].
        destruct (filepath_Join_prefix (root ++ sfx0) n) as [sfx ->].
        exists (sfx0 ++ sfx). apply append_assoc_s. }
      destruct (proj1 (List.Forall_forall _ _) HF x Hx) as [sfx ->].
      unfold storedPath. by rewrite strings_TrimPrefix_append. }
    split.
    + pose proof (proj1 (List.Forall_forall _ _) Hhashed r) as Hh.
      unfold reportHashed in Hh. rewrite Hdup in Hh. apply Hh, Hin.
      apply in_app_iff. right. by left.
    + specialize (Hver l1 r l2 Heq).
      destruct (firstWith (Hash r) l1) as [r0|] eqn:Hf.
      * destruct Hver as (Hseen & Hprev & Hidx).
        apply firstWith_Some in Hf as [Hr0 _].
        assert (Hr0' : In r0 (l1 ++ [r])) by (apply in_app_iff; by left).
        split; [done|]. split; [rewrite Hprev; by apply Hstored|].
        split; [done|]. intros Hne Hsep. rewrite Hprev.
        assert (HF : Forall (fun r => exists sfx,
                                FilePath r = root ++ sfx
                                /\ (sfx = "" \/ exists s, sfx = String "/" s))
                       (reports (trace (env (snd (search P
                          (stateOf root ∅ cfg u [EvAbs (TargetDirPath cfg)]))))))).
        { apply (search_records_on_paths root cfg
                   (fun p => exists sfx, p = root ++ sfx
                                         /\ (sfx = "" \/ exists s, sfx = String "/" s)));
            [exists ""; split; [apply append_empty_right|by left]| |done].
          intros p n (sfx0 & -> & Hs0).
          destruct (filepath_Join_separator root sfx0 n Hne Hsep Hs0) as [s ->].
          exists (String "/" s). split; [done|]. right. by exists s. }
        destruct (proj1 (List.Forall_forall _ _) HF r0 (Hin r0 Hr0'))
          as (sfx & -> & Hs).
        by apply storedPath_not_relative.
      * destruct Hver as (Hseen & Hidx). split; [done|].
        exists (storedPath root (FilePath r)). split; [done|].
        apply Hstored. apply in_app_iff. right. by left.
  - exact Hcnt.
Qed.

End Further.

(** * The walker at work *)

(** C2: in the walk of [/r], whose files [a.txt] and [b.txt] hold the
    same bytes, the record for [b.txt] carries ["/a.txt"], the absolute path
    of [a.txt] with the root trimmed off as a string and the separator
    left in front; the path of [a.txt] relative to the root is ["a.txt"]. *)
Theorem C2_stored_path_keeps_separator :
  let tr := trace (env (snd (search exPlatform (exStart (exConfig false false))))) in
  List.map (fun r => (FilePath r, AlreadySeen r, PreviousFilePath r)) (reports tr)
  = [("/r/a.txt", false, ""); ("/r/b.txt", true, "/a.txt"); ("/r/z.txt", false, "")]
  /\ spec_relativePath "/r" "/r/a.txt" = "a.txt"
  /\ "/a.txt" <> spec_relativePath "/r" "/r/a.txt".
Proof. vm_compute. repeat split. discriminate. Qed.

(** The walk of [/r] with dedup tracking on: [a.txt] and [b.txt] share a
    digest, the record of [b.txt] is marked seen and carries ["/a.txt"],
    where the path of [a.txt] relative to [/r] is ["a.txt"]. *)
Lemma C1_witness :
  let out := search exPlatform (exStart (exConfig true false)) in
  let tr := trace (env (snd out)) in
  let rs := reports tr in
  let idx := fileHashesToPrevious (self (snd out)) in
  (AllowDupes (exConfig true false) = false
   /\ newFileWalker exPlatform (exConfig true false) exWorld
      = (Done (inr (exWalker (exConfig true false))), logWorld (EvAbs "r") exWorld)
   /\ List.map (fun r => (FilePath r, Hash r, AlreadySeen r, PreviousFilePath r)) rs
      = [("/r/a.txt", "6869", false, ""); ("/r/b.txt", "6869", true, "/a.txt");
         ("/r/sub/c.txt", "63", false, ""); ("/r/z.txt", "", false, "")]
   /\ spec_relativePath "/r" "/r/a.txt" = "a.txt")
  /\ (omap hashedPath tr = omap acceptedPath tr
      /\ List.map FilePath rs = omap hashedOkPath tr)
  /\ (forall l1 r l2,
        rs = (l1 ++ r :: l2)%list ->
        (exists data,
            os_Open exPlatform (FilePath r) = Contents data
            /\ Hash r
               = hex_EncodeToString (pickHasher exPlatform (exConfig true false) data))
        /\ match firstWith (Hash r) l1 with
           | None =>
               AlreadySeen r = false
               /\ exists v, idx !! Hash r = Some v /\ "/r" ++ v = FilePath r
           | Some r0 =>
               AlreadySeen r = true
               /\ "/r" ++ PreviousFilePath r = FilePath r0
               /\ idx !! Hash r = Some (PreviousFilePath r)
               /\ ("/r" <> "" -> endsWithSeparator "/r" = false ->
                   PreviousFilePath r <> spec_relativePath "/r" (FilePath r0))
           end)
  /\ (forall r, In r rs -> countUnseen (Hash r) rs = 1%nat).
Proof.
  split; [repeat split|].
  exact (C1_first_seen_then_duplicates exPlatform (exConfig true false)
           O (exWalker (exConfig true false)) (logWorld (EvAbs "r") exWorld)
           eq_refl eq_refl).
Defined.

(** The symbolic link [/r/link] is visited and is no directory, yet the
    predicate is never invoked with its path. *)
Lemma C3_counterexample :
  let tr := trace (env (snd (search exPlatform (exStart (exConfig true false))))) in
  In (EvWalkFn "/r/link" (Some (exSymlink "link")) None) tr
  /\ IsDir (exSymlink "link") = false
  /\ ~ In "/r/link" (includedPaths tr).
Proof.
  vm_compute. split; [|split; [reflexivity|]].
  - do 15 right. left. reflexivity.
  - intros H. repeat (destruct H as [H|H]; [discriminate|]). exact H.
Qed.

(** In the same walk the predicate is invoked for regular files only. *)
Lemma C3_witness :
  newFileWalker exPlatform (exConfig true false) exWorld
  = (Done (inr (exWalker (exConfig true false))), logWorld (EvAbs "r") exWorld)
  /\ forall p b,
       In (EvInclude p b)
          (trace (env (snd (search exPlatform (exStart (exConfig true false)))))) ->
       exists info,
         In (EvWalkFn p (Some info) None)
            (trace (env (snd (search exPlatform (exStart (exConfig true false))))))
         /\ IsDir info = false /\ FileMode_IsRegular (Mode info) = true.
Proof.
  split; [reflexivity|].
  exact (proj2 (C3_include_called_for_regular_files exPlatform (exConfig true false)
                  O (exWalker (exConfig true false)) (logWorld (EvAbs "r") exWorld)
                  eq_refl)).
Defined.

(** The recursive walk of [/r] with duplicates allowed. *)
Lemma C4_witness :
  AllowDupes (exConfig true true) = true
  /\ newFileWalker exPlatform (exConfig true true) exWorld
     = (Done (inr (exWalker (exConfig true true))), logWorld (EvAbs "r") exWorld)
  /\ Forall dupesAllowedEvent
       (trace (env (snd (search exPlatform (exStart (exConfig true true)))))).
Proof.
  split; [reflexivity|]. split; [reflexivity|].
  exact (proj1 (C4_dupes_allowed_reports exPlatform (exConfig true true)
                  O (exWalker (exConfig true true)) (logWorld (EvAbs "r") exWorld)
                  eq_refl eq_refl)).
Defined.

(** With [/r/sub] unlistable, the walk of [/r] without recursion does
    not prune it and go on: [fileWalkFunc] is handed the listing error and
    returns it, [search] returns it too, and [/r/z.txt], next in the
    listing of the root, is never looked at. *)
Lemma C5_counterexample :
  let out := search exPlatformLocked (exStart (exConfig false false)) in
  let tr := trace (env (snd out)) in
  Recursive (exConfig false false) = false
  /\ IsDir (exDirectory "sub") = true
  /\ In (EvWalkFn "/r/sub" (Some (exDirectory "sub")) (Some exListFails)) tr
  /\ fst (fileWalkFunc exPlatformLocked "/r/sub" (Some (exDirectory "sub"))
            (Some exListFails) (exStart (exConfig false false)))
     = Done (Some exListFails)
  /\ isSkipDir exListFails = false
  /\ fst out = Done (Some exListFails)
  /\ ~ In (EvLstat "/r/z.txt") tr.
Proof.
  vm_compute. repeat split.
  - do 11 right. left. reflexivity.
  - intros H. repeat (destruct H as [H|H]; [discriminate|]). exact H.
Qed.

(** The walk of [/r] without recursion never looks below [/r/sub]. *)
Lemma C5_witness :
  Recursive (exConfig false false) = false
  /\ newFileWalker exPlatform (exConfig false false) exWorld
     = (Done (inr (exWalker (exConfig false false))), logWorld (EvAbs "r") exWorld)
  /\ treeNamesOk (os_Lstat exPlatform "/r") = true
  /\ Forall (atTopLevel "/r" (os_Lstat exPlatform "/r"))
       (trace (env (snd (search exPlatform (exStart (exConfig false false)))))).
Proof.
  split; [reflexivity|]. split; [reflexivity|]. split; [reflexivity|].
  exact (proj2 (proj2 (proj2 (C5_no_descent_without_recursion exPlatform
                         (exConfig false false) O (exWalker (exConfig false false))
                         (logWorld (EvAbs "r") exWorld) eq_refl eq_refl eq_refl)))).
Defined.

(** [FoundFileFn] answers [filepath.SkipDir] for [/r/sub/c.txt]: the walk
    goes on, [/r/z.txt] is reported after it, and [search] returns nil. *)
Lemma C6_counterexample :
  let out := search exPlatform (exStart exConfigSkip) in
  foundResults (trace (env (snd out)))
  = [("/r/a.txt", None); ("/r/b.txt", None);
     ("/r/sub/c.txt", Some SkipDir); ("/r/z.txt", None)]
  /\ fst out = Done None.
Proof. vm_compute. split; reflexivity. Qed.

(** [FoundFileFn] fails on the first file: nothing follows, and [search]
    returns its error. *)
Lemma C6_witness :
  let out := search exPlatform
               (mkState (exWalker exConfigFailing) exWorld) in
  trace (env (snd out))
  = (exUpToFirstFile ++ [EvHashFile "/r/a.txt" "6869" None]
       ++ EvFound (newReport exPlatform "/r" "/r/a.txt" (exRegular "a.txt")
                     false "6869" "")
            (Some exDiskFull) :: [])%list
  /\ isSkipDir exDiskFull = false /\ isSkipAll exDiskFull = false
  /\ fst out = Done (Some exDiskFull).
Proof.
  split; [reflexivity|]. split; [reflexivity|]. split; [reflexivity|].
  exact (proj2 (C6_callback_failure_aborts exPlatform "/r" ∅ exConfigFailing O
                  (exUpToFirstFile ++ [EvHashFile "/r/a.txt" "6869" None])
                  (newReport exPlatform "/r" "/r/a.txt" (exRegular "a.txt")
                     false "6869" "")
                  exDiskFull [] eq_refl eq_refl eq_refl)).
Defined.

(** [/r/a.txt] is accepted and cannot be opened: the walk ends with
    the failed hashing and the wrapped error. *)
Lemma C7_witness :
  let out := search exPlatformUnreadable
               (mkState (exWalker (exConfig true false)) exWorld) in
  AllowDupes (exConfig true false) = false
  /\ os_Open exPlatformUnreadable "/r/a.txt" = OpenFails exPermission
  /\ trace (env (snd out))
     = ([EvLstat "/r"; EvReadDir "/r"; EvWalkFn "/r" (Some (exDirectory "r")) None;
         EvLstat "/r/a.txt"; EvWalkFn "/r/a.txt" (Some (exRegular "a.txt")) None]
          ++ EvInclude "/r/a.txt" true
          :: [EvHashFile "/r/a.txt" "" (Some exPermission)])%list
  /\ fst out = Done (Some (hashFailure "/r/a.txt" exPermission)).
Proof.
  split; [reflexivity|]. split; [reflexivity|]. split; [reflexivity|].
  exact (proj1 (proj2 (C7_hash_failure_aborts exPlatformUnreadable "/r" ∅
                         (exConfig true false) O
                         [EvLstat "/r"; EvReadDir "/r";
                          EvWalkFn "/r" (Some (exDirectory "r")) None;
                          EvLstat "/r/a.txt";
                          EvWalkFn "/r/a.txt" (Some (exRegular "a.txt")) None]
                         "/r/a.txt" exPermission
                         [EvHashFile "/r/a.txt" "" (Some exPermission)]
                         eq_refl (or_introl eq_refl) eq_refl))).
Defined.

(** Without the predicate nothing is built and nothing is logged. *)
Lemma C8_witness :
  (IncludeFileFn exConfigNoInclude = None \/ FoundFileFn exConfigNoInclude = None)
  /\ exists msg,
       Validate exConfigNoInclude = Some (errorString msg)
       /\ newFileWalker exPlatform exConfigNoInclude exWorld
          = (Done (inl (errorString msg)), exWorld)
       /\ FindUniqueFiles exPlatform exConfigNoInclude exWorld
          = (Done (Some (errorString msg)), exWorld).
Proof.
  split; [left; reflexivity|].
  exact (C8_validation_precedes_filesystem exPlatform exConfigNoInclude exWorld
           (or_introl eq_refl)).
Defined.

(** After the walk of [/r] with duplicates allowed the index is empty. *)
Lemma C9_witness :
  AllowDupes (exConfig true true) = true
  /\ newFileWalker exPlatform (exConfig true true) exWorld
     = (Done (inr (exWalker (exConfig true true))), logWorld (EvAbs "r") exWorld)
  /\ fileHashesToPrevious
       (self (snd (search exPlatform (exStart (exConfig true true))))) = ∅.
Proof.
  split; [reflexivity|]. split; [reflexivity|].
  exact (proj1 (C9_index_untouched_when_dupes_allowed exPlatform (exConfig true true)
                  exWorld (exWalker (exConfig true true))
                  (logWorld (EvAbs "r") exWorld) eq_refl eq_refl)).
Defined.

(** Every record of the recursive walk of [/r] is consistent. *)
Lemma C10_witness :
  newFileWalker exPlatform (exConfig true false) exWorld
  = (Done (inr (exWalker (exConfig true false))), logWorld (EvAbs "r") exWorld)
  /\ treeNamesOk (os_Lstat exPlatform "/r") = true
  /\ forall r,
       In r (reports (trace (env (snd (search exPlatform
                                         (exStart (exConfig true false))))))) ->
       seenIffPrevious r.
Proof.
  split; [reflexivity|]. split; [reflexivity|].
  exact (C10_already_seen_iff_previous_path exPlatform (exConfig true false) O
           (exWalker (exConfig true false)) (logWorld (EvAbs "r") exWorld)
           eq_refl eq_refl).
Defined.

(** ** The further properties at work *)

(** [/r/a.txt] and [/r/sub/c.txt] differ, and so do their hash strings. *)
Lemma X1_witness :
  os_Open exPlatform "/r/a.txt" = Contents [x68; x69]
  /\ os_Open exPlatform "/r/sub/c.txt" = Contents [x63]
  /\ snd (hashFile exPlatform "/r/a.txt" (fun data => data)) = None
  /\ (fst (hashFile exPlatform "/r/a.txt" (fun data => data))
      = fst (hashFile exPlatform "/r/sub/c.txt" (fun data => data))
      <-> [x68; x69] = [x63]).
Proof.
  split; [reflexivity|]. split; [reflexivity|].
  exact (X1_hashFile_same_string_iff_same_digest exPlatform (fun data => data)
           "/r/a.txt" "/r/sub/c.txt" [x68; x69] [x63] eq_refl eq_refl).
Defined.

(** Without a working directory the relative target cannot be resolved. *)
Lemma X3_witness :
  filepath_Abs exPlatformNoCwd (TargetDirPath (exConfig true false)) = inl exGetwdFails
  /\ FindUniqueFiles exPlatformNoCwd (exConfig true false) exWorld
     = (Done (Some exGetwdFails), logWorld (EvAbs "r") exWorld).
Proof.
  split; [reflexivity|].
  exact (X3_path_resolution_failure exPlatformNoCwd (exConfig true false) exWorld
           _ _ exGetwdFails eq_refl eq_refl eq_refl).
Defined.

(** [/r/sub] cannot be listed: the walk ends there, recursive or not, and
    [/r/z.txt] is never looked at. *)
Lemma X6_witness :
  let out := search exPlatformLocked
               (mkState (exWalker (exConfig false false)) exWorld) in
  trace (env (snd out))
  = (exUpToFirstFile
       ++ [EvHashFile "/r/a.txt" "6869" None;
           EvFound (newReport exPlatformLocked "/r" "/r/a.txt" (exRegular "a.txt")
                      false "6869" "") None;
           EvLstat "/r/sub"; EvReadDir "/r/sub"]
       ++ EvWalkFn "/r/sub" (Some (exDirectory "sub")) (Some exListFails) :: [])%list
  /\ isSkipDir exListFails = false /\ isSkipAll exListFails = false
  /\ fst out = Done (Some exListFails).
Proof.
  split; [reflexivity|]. split; [reflexivity|]. split; [reflexivity|].
  exact (proj2 (X6_traversal_error_aborts exPlatformLocked "/r" ∅
                  (exConfig false false) O
                  (exUpToFirstFile
                     ++ [EvHashFile "/r/a.txt" "6869" None;
                         EvFound (newReport exPlatformLocked "/r" "/r/a.txt"
                                    (exRegular "a.txt") false "6869" "") None;
                         EvLstat "/r/sub"; EvReadDir "/r/sub"])
                  "/r/sub" (Some (exDirectory "sub")) exListFails []
                  eq_refl eq_refl eq_refl)).
Defined.

(** In the recursive walk of [/r] every accepted file is hashed and every
    hashed file is reported. *)
Lemma X7_witness :
  let tr := trace (env (snd (search exPlatform
                               (mkState (exWalker (exConfig true false)) exWorld)))) in
  FoundFileFn (exConfig true false) = Some (fun _ n => (None, S n))
  /\ omap hashedPath tr = omap acceptedPath tr
  /\ omap reportedPath tr = omap hashedOkPath tr.
Proof.
  split; [reflexivity|].
  exact (X7_accepted_hashed_reported exPlatform "/r" ∅ (exConfig true false) O
           _ eq_refl).
Defined.

(** The recursive walk of [/r] asks about its four regular files. *)
Lemma X11_witness :
  let out := search exPlatform (mkState (exWalker (exConfig true false)) exWorld) in
  Recursive (exConfig true false) = true
  /\ forallb uneventful (trace (env (snd out))) = true
  /\ fst out = Done None
  /\ includedPaths (trace (env (snd out)))
     = ["/r/a.txt"; "/r/b.txt"; "/r/sub/c.txt"; "/r/z.txt"].
Proof.
  split; [reflexivity|]. split; [reflexivity|].
  exact (X11_recursive_walk_asks_about_every_regular_file exPlatform "/r" ∅
           (exConfig true false) O _ _ eq_refl eq_refl eq_refl eq_refl).
Defined.

(** The walk of [/r] without recursion asks about the three regular files
    directly in it. *)
Lemma X12_witness :
  let out := search exPlatform (mkState (exWalker (exConfig false false)) exWorld) in
  Recursive (exConfig false false) = false
  /\ treeNamesOk (os_Lstat exPlatform "/r") = true
  /\ forallb uneventful (trace (env (snd out))) = true
  /\ fst out = Done None
  /\ includedPaths (trace (env (snd out))) = ["/r/a.txt"; "/r/b.txt"; "/r/z.txt"].
Proof.
  split; [reflexivity|]. split; [reflexivity|]. split; [reflexivity|].
  exact (X12_flat_walk_asks_about_regular_children exPlatform "/r" ∅
           (exConfig false false) O _ _ eq_refl eq_refl eq_refl eq_refl eq_refl).
Defined.

(** After the recursive walk of [/r] the index holds the three digests
    that were reported. *)
Lemma X13_witness :
  let out := search exPlatform (mkState (exWalker (exConfig true false)) exWorld) in
  AllowDupes (exConfig true false) = false
  /\ (is_Some (fileHashesToPrevious (self (snd out)) !! "63")
      <-> In "63" (List.map Hash (reports (trace (env (snd out)))))).
Proof.
  split; [reflexivity|].
  exact (X13_index_keys_are_reported_digests exPlatform "/r" (exConfig true false) O
           _ eq_refl eq_refl "63").
Defined.
